(** * EPUB Splitter: a shallow embedding of [epub_splitter.py]

    The script reads an EPUB container, extracts its chapter documents and an
    optional cover image, partitions the chapters into batches and writes one
    new container per batch.  This file models the script as pure functions
    over the contents of the source container and an explicit file system,
    and proves properties of the batching, naming, title derivation, cover
    search and package generation.

    Modelling conventions.
    - A Python [str] is the list of its code points, each an [N]; the ASCII
      literals of the script are written as Rocq strings and read through
      [lit].
    - The Unicode database is outside the script.  On ASCII the model fixes
      what it says: [\d] is [0-9], the white space of [str.strip] and [\s] is
      9-13 and 28-32, [str.lower] moves [A-Z] up by 32.  Beyond ASCII the
      decimal digits, the white space and the lower-case forms are tables of
      the environment [Env].
    - A Python [int] is a [Z]; loop counters that start at 1 are [nat].
    - [bytes] is [list byte].
    - The source container is the list of its members in [namelist()] order;
      the markup parser ([BeautifulSoup(..).decode_contents()]) belongs to the
      environment.
    - The file system is a finite map from paths to written containers; the
      environment says whether a file below a further directory can be
      created. *)

From Stdlib Require Import ZArith NArith Ascii String DecimalString DecimalZ.
From stdpp Require Import base option list strings sorting gmap.

Local Open Scope Z_scope.

(** ** Strings and the environment of the script *)

Abbreviation str := (list N).

(** The [str] of an ASCII literal, and the code point of an ASCII character. *)
Definition lit (s : string) : str := N_of_ascii <$> list_ascii_of_string s.
Coercion lit : string >-> list.

Definition ch (c : ascii) : N := N_of_ascii c.

Arguments lit : simpl never.
Arguments ch : simpl never.

(** The two characters beyond ASCII whose lower-case form has an ASCII
    character: LATIN CAPITAL LETTER I WITH DOT ABOVE and KELVIN SIGN. *)
Definition capital_i_dot : N := 304%N.
Definition kelvin_sign : N := 8490%N.

(** What the script takes from outside: the markup parser, the Unicode
    database beyond ASCII, and the directories of the file system.
    - [unicode_decimal c]: [c] has the general category Nd ([\d] matches it).
    - [unicode_space c]: [str.isspace] holds of [c] ([strip] and [\s]).
    - [unicode_lower s i]: the lower-case form of the character at index [i]
      of [s], for a character beyond ASCII other than the two above; it has
      the string as well because the form of a capital sigma depends on its
      neighbours.  No such form is empty or has an ASCII character.
    - [sub_dir_open path]: [path], which leads through a directory below the
      output directory, can be opened for writing. *)
Class Env : Type := {
  decode_contents : list Byte.byte → str;
  unicode_decimal : N → bool;
  unicode_space : N → bool;
  unicode_lower : str → nat → list N;
  unicode_lower_beyond_ascii : ∀ s i,
    unicode_lower s i ≠ [] ∧ Forall (λ x, (128 <= x)%N) (unicode_lower s i);
  sub_dir_open : str → bool
}.

(** ** Python primitives used by the script *)

Module Py.

(** The quote character, for the attribute values of the generated XML. *)
Definition dq : str := [34%N].

(** [q s] is [s] between double quotes. *)
Definition q (s : str) : str := dq ++ s ++ dq.

(** The newline character (the escape [\n]). *)
Definition nl : str := [10%N].

(** Exceptions the script can raise after the source container was read:
    the [ValueError] of lines 118 and 124, and the [OSError]
    ([FileNotFoundError] and the like) of line 158 for a path that cannot be
    opened. *)
Inductive exn : Type :=
  | ValueError (msg : str)
  | OSError (filename : str).

Inductive result (A : Type) : Type :=
  | Ok (a : A)
  | Raise (e : exn).
Arguments Ok {A} a.
Arguments Raise {A} e.

Definition bind {A B} (r : result A) (k : A → result B) : result B :=
  match r with
  | Ok a => k a
  | Raise e => Raise e
  end.

(** *** Characters *)

Definition is_ascii (c : N) : bool := (c <? 128)%N.

(** The digits [0-9]. *)
Definition is_ascii_digit (c : N) : bool := (48 <=? c)%N && (c <=? 57)%N.

Definition ascii_space (c : N) : bool :=
  ((9 <=? c)%N && (c <=? 13)%N) || ((28 <=? c)%N && (c <=? 32)%N).

Definition ascii_lower (c : N) : N :=
  if (65 <=? c)%N && (c <=? 90)%N then (c + 32)%N else c.

Section unicode.
Context {E : Env}.

(** [\d] of a [str] pattern: every Unicode decimal digit. *)
Definition is_digit (c : N) : bool :=
  if is_ascii c then is_ascii_digit c else unicode_decimal c.

(** [str.isspace]; [strip] and [\s] use it. *)
Definition is_space (c : N) : bool :=
  if is_ascii c then ascii_space c else unicode_space c.

(** The lower-case form of the character [c] at index [i] of [s]. *)
Definition lower_at (s : str) (i : nat) (c : N) : list N :=
  if is_ascii c then [ascii_lower c]
  else if (c =? kelvin_sign)%N then [ch "k"]
  else if (c =? capital_i_dot)%N then [ch "i"; 775%N]
  else unicode_lower s i.

(** [s.lower()] *)
Definition lower (s : str) : str := concat (imap (lower_at s) s).

End unicode.

(** *** Strings *)

(** [s.replace(a, b)] for one-character [a] and [b]. *)
Definition replace (a b : N) (s : str) : str :=
  (λ c, if (c =? a)%N then b else c) <$> s.

(** [s.startswith(p)] *)
Fixpoint startswith (s p : str) : bool :=
  match p, s with
  | [], _ => true
  | _ :: _, [] => false
  | x :: p', y :: s' => (x =? y)%N && startswith s' p'
  end.

(** [s.endswith(suf)] *)
Fixpoint endswith (s suf : str) : bool :=
  bool_decide (s = suf)
  || match s with
     | [] => false
     | _ :: s' => endswith s' suf
     end.

(** [s.endswith((a, b, ...))] *)
Definition endswith_any (s : str) (sufs : list str) : bool :=
  existsb (endswith s) sufs.

(** [sub in s] *)
Fixpoint contains (sub s : str) : bool :=
  startswith s sub
  || match s with
     | [] => false
     | _ :: s' => contains sub s'
     end.

(** [s.split(sep)] for a one-character separator: never empty. *)
Fixpoint split (sep : N) (s : str) : list str :=
  match s with
  | [] => [[]]
  | c :: s' =>
      if (c =? sep)%N then [] :: split sep s'
      else match split sep s' with
           | w :: ws => (c :: w) :: ws
           | [] => [[c]]
           end
  end.

(** [l[-1]] on a list of strings that is not empty. *)
Definition last_item (l : list str) : str := List.last l [].

(** The text before the last [sep] of [s], when there is one. *)
Fixpoint before_last (sep : N) (s : str) : option str :=
  match s with
  | [] => None
  | c :: s' =>
      match before_last sep s' with
      | Some p => Some (c :: p)
      | None => if (c =? sep)%N then Some [] else None
      end
  end.

(** [s.rsplit(sep, 1)[0]]: [s] itself when it has no [sep]. *)
Definition rsplit1_head (sep : N) (s : str) : str :=
  default s (before_last sep s).

Section stripping.
Context {E : Env}.

Fixpoint lstrip (s : str) : str :=
  match s with
  | [] => []
  | c :: s' => if is_space c then lstrip s' else s
  end.

Fixpoint rstrip (s : str) : str :=
  match s with
  | [] => []
  | c :: s' =>
      match rstrip s' with
      | [] => if is_space c then [] else [c]
      | r => c :: r
      end
  end.

(** [s.strip()] *)
Definition strip (s : str) : str := rstrip (lstrip s).

End stripping.

(** Truth value of a string and of an optional string ([None] and the empty
    string are false). *)
Definition truthy_str (s : str) : bool :=
  match s with
  | [] => false
  | _ :: _ => true
  end.

Definition truthy (o : option str) : bool :=
  match o with
  | Some s => truthy_str s
  | None => false
  end.

(** Truth value of optional [bytes]. *)
Definition truthy_bytes (o : option (list Byte.byte)) : bool :=
  match o with
  | Some (_ :: _) => true
  | _ => false
  end.

(** The order of [str], which [list.sort] uses: by code point, a proper
    prefix first. *)
Fixpoint str_leb (a b : str) : bool :=
  match a, b with
  | [], _ => true
  | _ :: _, [] => false
  | x :: a', y :: b' => (x <? y)%N || ((x =? y)%N && str_leb a' b')
  end.

Definition str_le (a b : str) : Prop := str_leb a b = true.

#[global] Instance str_le_dec : RelDecision str_le :=
  λ a b, decide (str_leb a b = true).

(** *** Regular expressions of the script *)

Section regular_expressions.
Context {E : Env}.

(** The rest of the pattern [\d+-] once a first digit was consumed: the
    greedy [\d+] takes one more digit when it can, and gives it back (the
    inner [None]) when the rest does not match; the result is the text after
    the match. *)
Fixpoint re_more_digits_dash (s : str) : option str :=
  match s with
  | [] => None
  | c :: s' =>
      match (if is_digit c then re_more_digits_dash s' else None) with
      | Some r => Some r
      | None => if (c =? ch "-")%N then Some s' else None
      end
  end.

(** [re.match(r'\d+-', s)]: the text after the match. *)
Definition re_match_digits_dash (s : str) : option str :=
  match s with
  | [] => None
  | c :: s' => if is_digit c then re_more_digits_dash s' else None
  end.

(** [re.sub(r'^\d+-', '', s)]: without the MULTILINE flag [^] holds at
    position 0 only, so at most one match is replaced. *)
Definition re_sub_leading_number (s : str) : str :=
  default s (re_match_digits_dash s).

(** [re.sub(r'\s+', '_', s)]: every maximal run of white space becomes one
    underscore. *)
Fixpoint re_sub_spaces_from (in_run : bool) (s : str) : str :=
  match s with
  | [] => []
  | c :: s' =>
      if is_space c then
        if in_run then re_sub_spaces_from true s'
        else ch "_" :: re_sub_spaces_from true s'
      else c :: re_sub_spaces_from false s'
  end.

Definition re_sub_spaces (s : str) : str := re_sub_spaces_from false s.

End regular_expressions.

(** *** Integers and lists *)

(** [str(n)], as an f-string prints an [int]. *)
Definition str_of_int (n : Z) : str := lit (NilEmpty.string_of_int (Z.to_int n)).
Definition str_of_nat (n : nat) : str := str_of_int (Z.of_nat n).

(** A slice bound brought into [0, len], as [l[lo:hi]] does: a negative bound
    counts from the end. *)
Definition clamp_index (len i : Z) : Z :=
  if i <? 0 then Z.max 0 (i + len) else Z.min i len.

(** [l[lo:hi]] *)
Definition slice {A} (l : list A) (lo hi : Z) : list A :=
  let len := Z.of_nat (length l) in
  let lo' := clamp_index len lo in
  let hi' := clamp_index len hi in
  take (Z.to_nat (hi' - lo')) (drop (Z.to_nat lo') l).

(** Number of elements of [range(start, stop, step)] for a step that is not
    zero. *)
Definition range_len (start stop step : Z) : nat :=
  if 0 <? step then
    if start <? stop then Z.to_nat ((stop - start - 1) / step + 1) else 0%nat
  else
    if stop <? start then Z.to_nat ((start - stop - 1) / (- step) + 1) else 0%nat.

(** [range(start, stop, step)]: a zero step raises [ValueError]. *)
Definition range (start stop step : Z) : result (list Z) :=
  if step =? 0 then Raise (ValueError "range() arg 3 must not be zero")
  else Ok ((λ k : nat, start + Z.of_nat k * step) <$> seq 0 (range_len start stop step)).

(** [enumerate(l, start)] *)
Definition enumerate {A} (start : nat) (l : list A) : list (nat * A) :=
  zip (seq start (length l)) l.

End Py.

Import Py.

(** ** The data of the script *)

(** The parsed command line ([config = vars(args)]). *)
Module config.
Record t : Type := mk {
  epub : str;
  splitsize : Z;
  outdir : option str;
  title : option str;
  singlerange : option (Z * Z)
}.
End config.

(** One element of [chapters]: the dictionary with the keys ['file_name'],
    ['content'] and ['title']. *)
Record chapter : Type := Chapter {
  file_name : str;
  content : str;
  title : str
}.

(** A member of the source container: its name and its bytes. *)
Record zip_entry : Type := ZipEntry {
  zname : str;
  zdata : list Byte.byte
}.

(** [z.namelist()] *)
Definition namelist (z : list zip_entry) : list str := zname <$> z.

(** [z.read(name)] and [z.open(name).read()]: the container's name table
    keeps the last member of a name. *)
Definition zread (z : list zip_entry) (name : str) : list Byte.byte :=
  match find (λ e, bool_decide (zname e = name)) (reverse z) with
  | Some e => zdata e
  | None => []
  end.

(** The three variables the cover search sets. *)
Record cover : Type := Cover {
  cover_image : option (list Byte.byte);
  cover_image_name : option str;
  cover_media_type : option str
}.

(** What [writestr] is given: text or bytes. *)
Inductive payload : Type :=
  | Text (s : str)
  | Binary (b : list Byte.byte).

Inductive compression : Type :=
  | ZIP_STORED
  | ZIP_DEFLATED.

(** A member of a written container. *)
Record member : Type := Member {
  m_name : str;
  m_data : payload;
  m_compress : compression
}.

(** [outzip.writestr(name, data, compress_type)] on a container opened with
    [ZipFile(output_name, 'w')], whose own compression is [ZIP_STORED]: the
    member is appended. *)
Definition writestr (outzip : list member) (name : str) (data : payload)
    (compress_type : option compression) : list member :=
  outzip ++ [Member name data (default ZIP_STORED compress_type)].

(** The file system: the containers written so far, by path. *)
Abbreviation file_system := (gmap str (list member)).

(** What a run leaves: the file system, and the exception that ended it. *)
Record outcome : Type := Outcome {
  files : file_system;
  raised : option exn
}.

Section script.
Context {E : Env}.

(** ** 2. Helpers *)

Definition is_sep (o : option N) : bool :=
  match o with
  | Some c => (c =? ch "/")%N || (c =? ch "\")%N
  | None => false
  end.

(** The characters that are no path separator of lines 43 and 49. *)
Definition not_sep (c : N) : bool := negb (is_sep (Some c)).

(** The loop [for i in range(len(input_path) - 1, -1, -1)] with [k = i + 1]:
    the index of the last separator. *)
Fixpoint last_sep (input_path : str) (k : nat) : option nat :=
  match k with
  | O => None
  | S i => if is_sep (input_path !! i) then Some i else last_sep input_path i
  end.

Definition get_base_name (input_path : str) : str :=
  let input_path :=
    if endswith (lower input_path) ".epub"
    then take (length input_path - 5) input_path
    else input_path in
  match last_sep input_path (length input_path) with
  | Some i => drop (i + 1) input_path
  | None => input_path
  end.

Definition get_base_dir (input_path : str) : str :=
  match last_sep input_path (length input_path) with
  | Some i => take (i + 1) input_path
  | None => "./"
  end.

(** [output_dir] after the normalisation of lines 55-59. *)
Definition output_dir (cfg : config.t) : str :=
  match config.outdir cfg with
  | Some d =>
      if truthy_str d then
        if negb (endswith d "/" || endswith d "\") then d ++ "/" else d
      else get_base_dir (config.epub cfg)
  | None => get_base_dir (config.epub cfg)
  end.

(** ** 3. Extract chapters + cover image *)

(** Lines 86-91: the title of a chapter from the base name of its file. *)
Definition chapter_title (base_file : str) : str :=
  let chapter_title := base_file in
  let chapter_title :=
    if endswith chapter_title ".html" || endswith chapter_title ".xhtml"
    then rsplit1_head (ch ".") chapter_title
    else chapter_title in
  let chapter_title := re_sub_leading_number chapter_title in
  strip (replace (ch "-") (ch " ") chapter_title).

(** [file_name.split('/')[-1]] *)
Definition base_of (file_name : str) : str := last_item (split (ch "/") file_name).

(** [html_files]: the chapter members, sorted by name. *)
Definition html_files (files : list str) : list str :=
  merge_sort str_le
    (filter (λ f, endswith_any f [lit ".html"; lit ".xhtml"] = true) files).

(** Lines 79-97, with [decode_contents] for
    [BeautifulSoup(content, 'html.parser').decode_contents()]. *)
Definition extract_chapter (z : list zip_entry) (file_name : str) : chapter :=
  let content := zread z file_name in
  let text := decode_contents content in
  let base_file := base_of file_name in
  Chapter base_file text (chapter_title base_file).

Definition extract_chapters (z : list zip_entry) : list chapter :=
  extract_chapter z <$> html_files (namelist z).

(** Lines 105-108: the media type, from the name as the container spells it. *)
Definition media_type_of (cover_image_name : str) : option str :=
  if endswith cover_image_name ".jpg" || endswith cover_image_name ".jpeg"
  then Some (lit "image/jpeg")
  else if endswith cover_image_name ".png" then Some (lit "image/png")
  else None.

(** The test of line 102. *)
Definition is_cover_name (file_name : str) : bool :=
  let lower_name := lower file_name in
  contains "cover" lower_name
  && endswith_any lower_name [lit ".jpg"; lit ".jpeg"; lit ".png"].

(** Lines 100-110: the loop stops at the first member that passes the test. *)
Fixpoint find_cover_in (z : list zip_entry) (files : list str) : cover :=
  match files with
  | [] => Cover None None None
  | file_name :: rest =>
      if is_cover_name file_name then
        let cover_image_name := base_of file_name in
        Cover (Some (zread z file_name)) (Some cover_image_name)
              (media_type_of cover_image_name)
      else find_cover_in z rest
  end.

Definition find_cover (z : list zip_entry) : cover := find_cover_in z (namelist z).

(** ** 4. Split logic *)

(** [list(chunks(lst, n))] *)
Definition chunks {A} (lst : list A) (n : Z) : result (list (list A)) :=
  bind (range 0 (Z.of_nat (length lst)) n)
       (λ starts, Ok ((λ i, slice lst i (i + n)) <$> starts)).

Definition invalid_range (start end_ : Z) (total : nat) : exn :=
  ValueError ("Invalid range: " ++ str_of_int start ++ "-" ++ str_of_int end_
              ++ ". Total chapters: " ++ str_of_nat total).

(** Lines 121-129. *)
Definition chapter_batches (cfg : config.t) (chapters : list chapter)
    : result (list (list chapter)) :=
  match config.singlerange cfg with
  | Some (start, end_) =>
      if (start <? 1) || (Z.of_nat (length chapters) <? end_) || (end_ <? start)
      then Raise (invalid_range start end_ (length chapters))
      else Ok [slice chapters (start - 1) end_]
  | None => chunks chapters (config.splitsize cfg)
  end.

(** ** 5. Write each EPUB file *)

(** Lines 135-140: the positions the names and titles of a part show. *)
Definition start_chapter (cfg : config.t) (i : nat) : Z :=
  match config.singlerange cfg with
  | Some (start, _) => start
  | None => (Z.of_nat i - 1) * config.splitsize cfg + 1
  end.

Definition end_chapter (cfg : config.t) (i : nat) (batch : list chapter) : Z :=
  match config.singlerange cfg with
  | Some (_, end_) => end_
  | None => ((Z.of_nat i - 1) * config.splitsize cfg + 1) + Z.of_nat (length batch) - 1
  end.

(** Lines 143-146. *)
Definition part_title (cfg : config.t) (base_name : str) (i : nat)
    (batch : list chapter) : str :=
  match config.title cfg with
  | Some t =>
      if truthy_str t then t
      else base_name ++ " " ++ str_of_int (start_chapter cfg i) ++ "-"
           ++ str_of_int (end_chapter cfg i batch)
  | None =>
      base_name ++ " " ++ str_of_int (start_chapter cfg i) ++ "-"
      ++ str_of_int (end_chapter cfg i batch)
  end.

(** Lines 149-153. *)
Definition output_name (cfg : config.t) (base_name output_dir : str) (i : nat)
    (batch : list chapter) : str :=
  match config.title cfg with
  | Some t =>
      if truthy_str t then
        let safe_title := re_sub_spaces (strip t) in
        output_dir ++ safe_title ++ ".epub"
      else output_dir ++ base_name ++ "_" ++ str_of_int (start_chapter cfg i)
           ++ "_" ++ str_of_int (end_chapter cfg i batch) ++ ".epub"
  | None =>
      output_dir ++ base_name ++ "_" ++ str_of_int (start_chapter cfg i)
      ++ "_" ++ str_of_int (end_chapter cfg i batch) ++ ".epub"
  end.

Definition container_xml : str :=
  "<?xml version=" ++ q "1.0" ++ "?>" ++ nl ++
  "<container version=" ++ q "1.0" ++ nl ++
  "  xmlns=" ++ q "urn:oasis:names:tc:opendocument:xmlns:container" ++ ">" ++ nl ++
  "   <rootfiles>" ++ nl ++
  "      <rootfile full-path=" ++ q "content.opf" ++ nl ++
  "         media-type=" ++ q "application/oebps-package+xml" ++ "/>" ++ nl ++
  "   </rootfiles>" ++ nl ++
  "</container>".

Definition css_content : str :=
  nl ++
  "body {" ++ nl ++
  "  text-align: justify;" ++ nl ++
  "}" ++ nl ++
  nl ++
  "h1 {" ++ nl ++
  "    font-size: 160%;" ++ nl ++
  "    padding: 1em;   " ++ nl ++
  "}" ++ nl ++
  nl ++
  "p {" ++ nl ++
  "  text-indent: 2em;" ++ nl ++
  "  margin: 0 0 1em 0;" ++ nl ++
  "}" ++ nl.

(** Line 201. *)
Definition cover_item (cover_image_name cover_media_type : str) : str :=
  "<item id=" ++ q "cover" ++ " href=" ++ q cover_image_name ++ " media-type="
  ++ q cover_media_type ++ " properties=" ++ q "cover-image" ++ "/>" ++ nl.

(** Line 203. *)
Definition css_item : str :=
  "<item id=" ++ q "css" ++ " href=" ++ q "styles.css" ++ " media-type="
  ++ q "text/css" ++ "/>" ++ nl.

(** The identifier [chap{idx}] of lines 206 and 207. *)
Definition chap_id (idx : nat) : str := "chap" ++ str_of_nat idx.

(** Line 206. *)
Definition manifest_item (idx : nat) (chapter : chapter) : str :=
  "<item id=" ++ q (chap_id idx) ++ " href=" ++ q (file_name chapter)
  ++ " media-type=" ++ q "application/xhtml+xml" ++ "/>" ++ nl.

(** Line 207. *)
Definition spine_item (idx : nat) : str :=
  "<itemref idref=" ++ q (chap_id idx) ++ "/>" ++ nl.

(** Lines 210-220. *)
Definition chapter_html (chapter : chapter) : str :=
  "<?xml version=" ++ q "1.0" ++ " encoding=" ++ q "UTF-8" ++ "?>" ++ nl ++
  "<html xmlns=" ++ q "http://www.w3.org/1999/xhtml" ++ ">" ++ nl ++
  "<head>" ++ nl ++
  "  <title>" ++ title chapter ++ "</title>" ++ nl ++
  "  <link rel=" ++ q "stylesheet" ++ " type=" ++ q "text/css" ++ " href=" ++ q "styles.css" ++ "/>" ++ nl ++
  "</head>" ++ nl ++
  "<body>" ++ nl ++
  content chapter ++ nl ++
  "</body>" ++ nl ++
  "</html>" ++ nl.

(** Line 223. *)
Definition ncx_item : str :=
  "<item id=" ++ q "ncx" ++ " href=" ++ q "toc.ncx" ++ " media-type="
  ++ q "application/x-dtbncx+xml" ++ "/>".

(** The variables the chapter loop of lines 205-221 updates. *)
Record loop_state : Type := LoopState {
  manifest_items : str;
  spine_items : str;
  outzip : list member
}.

(** One turn of the loop [for idx, chapter in enumerate(batch, start=idx_offset)]. *)
Definition chapter_step (st : loop_state) (p : nat * chapter) : loop_state :=
  let '(idx, chapter) := p in
  LoopState (manifest_items st ++ manifest_item idx chapter)
            (spine_items st ++ spine_item idx)
            (writestr (outzip st) (file_name chapter) (Text (chapter_html chapter)) None).

Definition chapter_loop (st : loop_state) (batch : list chapter) : loop_state :=
  let idx_offset := 1%nat in
  foldl chapter_step st (enumerate idx_offset batch).

(** Lines 226-234. *)
Definition metadata (c : cover) (part_title base_name : str) (i : nat) : str :=
  let metadata :=
    nl ++
    "  <metadata xmlns:dc=" ++ q "http://purl.org/dc/elements/1.1/" ++ ">" ++ nl ++
    "    <dc:title>" ++ part_title ++ "</dc:title>" ++ nl ++
    "    <dc:language>en</dc:language>" ++ nl ++
    "    <dc:identifier id=" ++ q "BookId" ++ ">" ++ base_name ++ "_part_" ++ str_of_nat i ++ "</dc:identifier>" ++ nl ++
    "  " in
  let metadata :=
    if truthy (cover_image_name c)
    then metadata ++ "<meta name=" ++ q "cover" ++ " content=" ++ q "cover" ++ "/>"
    else metadata in
  metadata ++ nl ++ "  </metadata>".

(** Lines 236-245. *)
Definition content_opf (metadata manifest_items spine_items : str) : str :=
  "<?xml version=" ++ q "1.0" ++ " encoding=" ++ q "UTF-8" ++ "?>" ++ nl ++
  "<package xmlns=" ++ q "http://www.idpf.org/2007/opf" ++ " unique-identifier=" ++ q "BookId" ++ " version=" ++ q "2.0" ++ ">" ++ nl ++
  metadata ++ nl ++
  "  <manifest>" ++ nl ++
  "    " ++ manifest_items ++ nl ++
  "  </manifest>" ++ nl ++
  "  <spine toc=" ++ q "ncx" ++ ">" ++ nl ++
  "    " ++ spine_items ++ nl ++
  "  </spine>" ++ nl ++
  "</package>".

(** Lines 253-257. *)
Definition cover_nav_point (cover_image_name : str) : str :=
  nl ++
  "    <navPoint id=" ++ q "navPoint-0" ++ " playOrder=" ++ q "0" ++ ">" ++ nl ++
  "      <navLabel><text>Cover</text></navLabel>" ++ nl ++
  "      <content src=" ++ q cover_image_name ++ "/>" ++ nl ++
  "    </navPoint>".

(** Lines 260-264. *)
Definition nav_point (nav_index : nat) (chapter : chapter) : str :=
  nl ++
  "    <navPoint id=" ++ q ("navPoint-" ++ str_of_nat nav_index) ++ " playOrder=" ++ q (str_of_nat nav_index) ++ ">" ++ nl ++
  "      <navLabel><text>" ++ title chapter ++ "</text></navLabel>" ++ nl ++
  "      <content src=" ++ q (file_name chapter) ++ "/>" ++ nl ++
  "    </navPoint>".

(** One turn of the loop of lines 259-265 on [(nav_points, nav_index)]; the
    loop's own [idx] is not used. *)
Definition nav_step (st : str * nat) (p : nat * chapter) : str * nat :=
  let '(nav_points, nav_index) := st in
  let '(_, chapter) := p in
  (nav_points ++ nav_point nav_index chapter, (nav_index + 1)%nat).

(** Lines 249-265: the final [nav_points]. *)
Definition nav_points (c : cover) (batch : list chapter) : str :=
  let nav_points := [] in
  let nav_index := 1%nat in
  let nav_points :=
    match cover_image_name c with
    | Some n => if truthy_str n then nav_points ++ cover_nav_point n else nav_points
    | None => nav_points
    end in
  fst (foldl nav_step (nav_points, nav_index) (enumerate 1 batch)).

(** Lines 267-279. *)
Definition toc_ncx (base_name : str) (i : nat) (part_title nav_points : str) : str :=
  "<?xml version=" ++ q "1.0" ++ " encoding=" ++ q "UTF-8" ++ "?>" ++ nl ++
  "<ncx xmlns=" ++ q "http://www.daisy.org/z3986/2005/ncx/" ++ " version=" ++ q "2005-1" ++ ">" ++ nl ++
  "  <head>" ++ nl ++
  "    <meta name=" ++ q "dtb:uid" ++ " content=" ++ q (base_name ++ "_part_" ++ str_of_nat i) ++ "/>" ++ nl ++
  "    <meta name=" ++ q "dtb:depth" ++ " content=" ++ q "1" ++ "/>" ++ nl ++
  "    <meta name=" ++ q "dtb:totalPageCount" ++ " content=" ++ q "0" ++ "/>" ++ nl ++
  "    <meta name=" ++ q "dtb:maxPageNumber" ++ " content=" ++ q "0" ++ "/>" ++ nl ++
  "  </head>" ++ nl ++
  "  <docTitle><text>" ++ part_title ++ "</text></docTitle>" ++ nl ++
  "  <navMap>" ++ nl ++
  "    " ++ nav_points ++ nl ++
  "  </navMap>" ++ nl ++
  "</ncx>".

(** The state of the chapter loop when it starts: the manifest has the cover
    item (line 200) and the stylesheet item, the container has the members
    written by lines 160-193. *)
Definition before_chapters (c : cover) : loop_state :=
  let outzip := [] in
  let outzip := writestr outzip "mimetype" (Text "application/epub+zip") (Some ZIP_STORED) in
  let outzip := writestr outzip "META-INF/container.xml" (Text container_xml) None in
  let outzip :=
    match cover_image c, cover_image_name c with
    | Some b, Some n =>
        if truthy_bytes (Some b) && truthy_str n then writestr outzip n (Binary b) None
        else outzip
    | _, _ => outzip
    end in
  let outzip := writestr outzip "styles.css" (Text css_content) None in
  let manifest_items := [] in
  let spine_items := [] in
  let manifest_items :=
    match cover_image_name c, cover_media_type c with
    | Some n, Some t =>
        if truthy_str n && truthy_str t then manifest_items ++ cover_item n t
        else manifest_items
    | _, _ => manifest_items
    end in
  let manifest_items := manifest_items ++ css_item in
  LoopState manifest_items spine_items outzip.

(** The final [manifest_items] and [spine_items] of a part. *)
Definition manifest_of (c : cover) (batch : list chapter) : str :=
  manifest_items (chapter_loop (before_chapters c) batch) ++ ncx_item.

Definition spine_of (c : cover) (batch : list chapter) : str :=
  spine_items (chapter_loop (before_chapters c) batch).

(** Lines 158-280: the members of the container written for part [i], in the
    order they are written. *)
Definition write_epub (cfg : config.t) (base_name : str) (c : cover) (i : nat)
    (batch : list chapter) : list member :=
  let part_title := part_title cfg base_name i batch in
  let st := chapter_loop (before_chapters c) batch in
  let manifest_items := manifest_items st ++ ncx_item in
  let metadata := metadata c part_title base_name i in
  let outzip :=
    writestr (outzip st) "content.opf"
             (Text (content_opf metadata manifest_items (spine_items st))) None in
  writestr outzip "toc.ncx"
           (Text (toc_ncx base_name i part_title (nav_points c batch))) None.

(** Line 158, [zipfile.ZipFile(output_name, 'w')], creates the file or
    empties it.  Line 61 has made [output_dir], and the destination is taken
    to be writable, so a name directly in it can be opened.  A name with a
    further separator leads through another directory, and the environment
    says whether the file can be opened there. *)
Definition can_open (output_dir output_name : str) : bool :=
  forallb not_sep (drop (length output_dir) output_name)
  || sub_dir_open output_name.

(** One turn of the loop of line 134: the container of part [i] replaces
    whatever the path held; when the path cannot be opened line 158 raises and
    nothing is written. *)
Definition write_part (cfg : config.t) (base_name output_dir : str) (c : cover)
    (fs : file_system) (p : nat * list chapter) : result file_system :=
  let '(i, batch) := p in
  let output_name := output_name cfg base_name output_dir i batch in
  if can_open output_dir output_name
  then Ok (<[output_name := write_epub cfg base_name c i batch]> fs)
  else Raise (OSError output_name).

(** The loop of line 134: the first exception ends the run, and the files of
    the parts before it stay. *)
Fixpoint write_parts (cfg : config.t) (base_name output_dir : str) (c : cover)
    (fs : file_system) (parts : list (nat * list chapter)) : outcome :=
  match parts with
  | [] => Outcome fs None
  | p :: rest =>
      match write_part cfg base_name output_dir c fs p with
      | Ok fs' => write_parts cfg base_name output_dir c fs' rest
      | Raise e => Outcome fs (Some e)
      end
  end.

(** The script from line 53 on, on a source container that was opened. *)
Definition run (cfg : config.t) (z : list zip_entry) (fs : file_system) : outcome :=
  let base_name := get_base_name (config.epub cfg) in
  let output_dir := output_dir cfg in
  let chapters := extract_chapters z in
  let c := find_cover z in
  match chapter_batches cfg chapters with
  | Raise e => Outcome fs (Some e)
  | Ok batches => write_parts cfg base_name output_dir c fs (enumerate 1 batches)
  end.

End script.

(** ** The specification's TitleDeriver, in its own words *)

Module TitleDeriver.

Section derive.
Context {E : Env}.

(** The characters of the leading run: the specification has [[0-9]]. *)
Variable digit : N → bool.

(** [s] without a trailing [suf], when its last characters are [suf]. *)
Definition strip_suffix (suf s : str) : option str :=
  let n := (length s - length suf)%nat in
  if bool_decide (drop n s = suf) then Some (take n s) else None.

(** Strip a trailing case-exact [.html] or [.xhtml] suffix. *)
Definition strip_extension (s : str) : str :=
  match strip_suffix ".html" s with
  | Some p => p
  | None => default s (strip_suffix ".xhtml" s)
  end.

(** The text after the longest run of digits at the start of [s]. *)
Fixpoint after_digits (s : str) : str :=
  match s with
  | [] => []
  | c :: s' => if digit c then after_digits s' else s
  end.

(** Strip one leading run matching [^digit+-]: a run of digits that is not
    empty, and the dash after it. *)
Definition strip_leading_number (s : str) : str :=
  match s with
  | [] => s
  | c :: s' =>
      if digit c then
        match after_digits s' with
        | d :: r => if (d =? ch "-")%N then r else s
        | [] => s
        end
      else s
  end.

(** Replace every [-] with a space. *)
Fixpoint dashes_to_spaces (s : str) : str :=
  match s with
  | [] => []
  | c :: s' => (if (c =? ch "-")%N then ch " " else c) :: dashes_to_spaces s'
  end.

(** The number of white-space characters [s] starts with. *)
Fixpoint spaces_at_start (s : str) : nat :=
  match s with
  | [] => 0
  | c :: s' => if is_space c then S (spaces_at_start s') else 0
  end.

(** Trim leading and trailing white space: what is left between the white
    space [s] starts with and the white space it ends with. *)
Definition trim (s : str) : str :=
  let leading := spaces_at_start s in
  let trailing := spaces_at_start (reverse s) in
  take (length s - leading - trailing) (drop leading s).

Definition derive_with (fileName : str) : str :=
  trim (dashes_to_spaces (strip_leading_number (strip_extension fileName))).

(** The strings of [digit*]. *)
Definition digits (s : str) : bool := forallb digit s.

End derive.

(** [derive] as the specification words it, with the run [^[0-9]+-]. *)
Definition derive {E : Env} (fileName : str) : str :=
  derive_with is_ascii_digit fileName.

(** [derive] with the run [^\d+-] of a [str] pattern: any decimal digit. *)
Definition derive_decimal {E : Env} (fileName : str) : str :=
  derive_with is_digit fileName.

End TitleDeriver.

(** ** Definitions for the statements *)

(** The window of [n] elements that starts after [k] windows. *)
Definition window {A} (lst : list A) (n k : nat) : list A :=
  take n (drop (k * n) lst).

(** The error [range] raises for a zero step. *)
Definition range_step_zero : exn := ValueError "range() arg 3 must not be zero".

(** The concatenation of a list of strings. *)
Definition join (l : list str) : str := concat l.

(** The member the chapter loop writes for a chapter. *)
Definition chapter_member (chapter : chapter) : member :=
  Member (file_name chapter) (Text (chapter_html chapter)) ZIP_STORED.

(** What the manifest and the navigation map start with. *)
Definition manifest_head (c : cover) : str :=
  manifest_items (before_chapters c).

Definition nav_head (c : cover) : str :=
  match cover_image_name c with
  | Some n => if truthy_str n then cover_nav_point n else []
  | None => []
  end.

(** The member written for the cover: none unless both the bytes and the
    name are true values. *)
Definition cover_members (c : cover) : list member :=
  match cover_image c, cover_image_name c with
  | Some b, Some n =>
      if truthy_bytes (Some b) && truthy_str n then [Member n (Binary b) ZIP_STORED] else []
  | _, _ => []
  end.

(** Every character of [s] passes [p]. *)
Definition all_chars (p : N → bool) (s : str) : bool := forallb p s.

(** The characters that are no dash and no white space; the characters [str]
    prints an [int] with. *)
Definition not_dash (c : N) : bool := negb (c =? ch "-")%N.
Definition not_space {E : Env} (c : N) : bool := negb (is_space c).
Definition int_char (c : N) : bool := is_ascii_digit c || (c =? ch "-")%N.

(** [sub] is a part of [s]. *)
Definition part_of (sub s : str) : Prop := ∃ pre post, s = pre ++ sub ++ post.

(** The elements of [content.opf] and [toc.ncx] that hold the manifest, the
    spine and the navigation points (lines 239-244 and 276-278). *)
Definition manifest_element (manifest_items : str) : str :=
  "  <manifest>" ++ nl ++ "    " ++ manifest_items ++ nl ++ "  </manifest>" ++ nl.

Definition spine_element (spine_items : str) : str :=
  "  <spine toc=" ++ q "ncx" ++ ">" ++ nl ++ "    " ++ spine_items ++ nl
  ++ "  </spine>" ++ nl.

Definition nav_map (nav_points : str) : str :=
  "  <navMap>" ++ nl ++ "    " ++ nav_points ++ nl ++ "  </navMap>" ++ nl.

(** The two places of a package that show its display title (lines 228 and
    275). *)
Definition shows_title (display_title : str) (members : list member) : Prop :=
  ∃ opf ncx,
    Member "content.opf" (Text opf) ZIP_STORED ∈ members
    ∧ part_of ("    <dc:title>" ++ display_title ++ "</dc:title>" ++ nl) opf
    ∧ Member "toc.ncx" (Text ncx) ZIP_STORED ∈ members
    ∧ part_of ("  <docTitle><text>" ++ display_title ++ "</text></docTitle>" ++ nl) ncx.

(** The ASCII characters other than [i] and [k], the two that a character
    beyond ASCII can have in its lower-case form. *)
Definition plain (c : N) : bool :=
  is_ascii c && negb (c =? ch "i")%N && negb (c =? ch "k")%N.

(** A directory path that ends with one of the two separators. *)
Definition ends_with_sep (d : str) : bool := endswith d "/" || endswith d "\".

(** Lines 40-41: the path without a trailing [.epub], in any case. *)
Definition without_epub {E : Env} (input_path : str) : str :=
  if endswith (lower input_path) ".epub"
  then take (length input_path - 5) input_path
  else input_path.

(** The name tests of lines 76 and 102 on a base name. *)
Definition is_chapter_name (name : str) : bool :=
  endswith_any name [lit ".html"; lit ".xhtml"].

Definition is_image_name {E : Env} (name : str) : bool :=
  endswith_any (lower name) [lit ".jpg"; lit ".jpeg"; lit ".png"].

(** ** Sample books *)

(** Five chapters to try the batching on. *)
Definition five_chapters : list chapter :=
  (λ n, Chapter ("c" ++ str_of_nat n ++ ".xhtml") "<p/>" ("c" ++ str_of_nat n))
    <$> seq 1 5.

(** A stand-in for the markup parser: each byte read as one character. *)
Definition plain_decode (content : list Byte.byte) : str := Byte.to_N <$> content.

Definition page (text : string) : list Byte.byte := list_byte_of_string text.

(** Tables to run the script with.  Decimal digits: the Arabic-Indic, the
    extended Arabic-Indic, the Devanagari and the full-width digits.  White
    space: the code points [str.isspace] accepts.  Lower case: the capital
    letters of Latin-1. *)
Definition sample_decimal (c : N) : bool :=
  ((1632 <=? c) && (c <=? 1641) || (1776 <=? c) && (c <=? 1785)
   || (2406 <=? c) && (c <=? 2415) || (65296 <=? c) && (c <=? 65305))%N.

Definition sample_space (c : N) : bool :=
  ((c =? 133) || (c =? 160) || (c =? 5760) || (8192 <=? c) && (c <=? 8202)
   || (c =? 8232) || (c =? 8233) || (c =? 8239) || (c =? 8287) || (c =? 12288))%N.

Definition sample_lower (s : str) (i : nat) : list N :=
  match s !! i with
  | Some c =>
      if ((192 <=? c) && (c <=? 222) && negb (c =? 215))%N then [(c + 32)%N]
      else [N.max 128 c]
  | None => [128%N]
  end.

(** The sample environment: the tables above, the plain parser, and a
    destination in which no further directory exists. *)
Definition sample_env : Env := {|
  decode_contents := plain_decode;
  unicode_decimal := sample_decimal;
  unicode_space := sample_space;
  unicode_lower := sample_lower;
  unicode_lower_beyond_ascii := ltac:(
    intros s i; unfold sample_lower; destruct (s !! i) as [c|];
    [destruct ((192 <=? c) && (c <=? 222) && negb (c =? 215))%N eqn:Hc|];
    (split; [done|]); repeat constructor; try lia;
    apply andb_true_iff in Hc as [[H1%N.leb_le _]%andb_true_iff _]; lia);
  sub_dir_open := λ _, false
|}.

(** The book of the specification's end-to-end example: three chapters, no
    cover. *)
Definition abc_book : list zip_entry :=
  [ZipEntry "mimetype" (page "application/epub+zip");
   ZipEntry "OEBPS/c.xhtml" (page "<p>third</p>");
   ZipEntry "OEBPS/a.xhtml" (page "<p>first</p>");
   ZipEntry "OEBPS/b.xhtml" (page "<p>second</p>")].

(** A book with two candidate covers, the first with an upper-case
    extension. *)
Definition two_covers_book : list zip_entry :=
  [ZipEntry "img/Cover.PNG" (page "PNG");
   ZipEntry "img/other-cover.jpg" (page "JFIF");
   ZipEntry "OEBPS/a.xhtml" (page "<p>first</p>")].

(** A book whose cover image has no bytes. *)
Definition empty_cover_book : list zip_entry :=
  [ZipEntry "cover.jpg" [];
   ZipEntry "OEBPS/a.xhtml" (page "<p>first</p>")].

(** A book whose cover is found by the name of its directory. *)
Definition covers_dir_book : list zip_entry :=
  [ZipEntry "covers/art.jpg" (page "JFIF");
   ZipEntry "OEBPS/a.xhtml" (page "<p>first</p>")].

(** A container without chapter documents. *)
Definition no_chapter_book : list zip_entry :=
  [ZipEntry "mimetype" (page "application/epub+zip");
   ZipEntry "notes.txt" (page "nothing to read")].

(** The command line [novel.epub -splitsize size] in the directory [books]. *)
Definition fixed_cfg (size : Z) : config.t :=
  config.mk "books/novel.epub" size None None None.

Definition range_cfg (start end_ : Z) : config.t :=
  config.mk "books/novel.epub" 100 None None (Some (start, end_)).

Definition titled_cfg (size : Z) (t : str) : config.t :=
  config.mk "books/novel.epub" size None (Some t) None.

(** A chapter file whose number is written with an Arabic-Indic digit. *)
Definition arabic_three_intro : str := 1635%N :: lit "-intro.html".

(** ** Facts about strings *)

Section facts.
Context {E : Env}.

Lemma app_assoc_s (s t u : str) : (s ++ t) ++ u = s ++ t ++ u.
Proof. by rewrite <-app_assoc. Qed.

Lemma lit_inj (a b : string) : lit a = lit b → a = b.
Proof.
  unfold lit. revert b. induction a as [|x a IH]; intros [|y b]; try done.
  simpl. intros [= Hxy Hab]. f_equal; [|by apply IH].
  by rewrite <-(ascii_N_embedding x), <-(ascii_N_embedding y), Hxy.
Qed.

Lemma lit_app (a b : string) : lit (a +:+ b) = lit a ++ lit b.
Proof.
  unfold lit. induction a as [|x a IH]; [done|].
  change (String x a +:+ b) with (String x (a +:+ b)).
  cbn [list_ascii_of_string]. by rewrite !fmap_cons, IH.
Qed.

(** [endswith] holds exactly of the strings that are a text followed by the
    suffix. *)
Lemma endswith_spec (s suf : str) :
  endswith s suf = true ↔ ∃ p, s = p ++ suf.
Proof.
  induction s as [|c s IH].
  - simpl. rewrite orb_false_r, bool_decide_eq_true. split.
    + intros <-. by exists [].
    + intros [[|c p] Hp]; [done|]. discriminate.
  - simpl. rewrite orb_true_iff, bool_decide_eq_true, IH. split.
    + intros [<-|[p ->]]; [by exists []|]. by exists (c :: p).
    + intros [[|c' p] Hp]; [by left|].
      injection Hp as -> ->. right. by exists p.
Qed.

Lemma endswith_false (s suf : str) :
  endswith s suf = false ↔ ∀ p, s ≠ p ++ suf.
Proof.
  rewrite <-not_true_iff_false, endswith_spec. split.
  - intros Hno p Hp. apply Hno. by exists p.
  - intros Hno [p Hp]. by apply (Hno p).
Qed.

(** ** The chapter title *)

Section title.
Variable digit : N → bool.

Lemma strip_suffix_Some (suf s p : str) :
  TitleDeriver.strip_suffix suf s = Some p ↔ s = p ++ suf.
Proof.
  unfold TitleDeriver.strip_suffix. split.
  - case_bool_decide as Hd; [|done]. intros [= <-].
    rewrite <-(take_drop (length s - length suf) s) at 1. by rewrite Hd.
  - intros ->. rewrite length_app, Nat.add_sub, drop_app_length, take_app_length.
    by rewrite bool_decide_eq_true_2.
Qed.

Lemma strip_suffix_None (suf s : str) :
  TitleDeriver.strip_suffix suf s = None ↔ endswith s suf = false.
Proof.
  rewrite endswith_false. split.
  - intros Hn p Hp. apply strip_suffix_Some in Hp. congruence.
  - intros Hno. destruct (TitleDeriver.strip_suffix suf s) as [p|] eqn:Hp; [|done].
    apply strip_suffix_Some in Hp. by destruct (Hno p).
Qed.

Lemma before_last_app (sep : N) (p t : str) :
  before_last sep t = None → before_last sep (p ++ sep :: t) = Some p.
Proof.
  intros Ht. induction p as [|c p IH].
  - simpl. by rewrite Ht, N.eqb_refl.
  - simpl. by rewrite IH.
Qed.

(** On a name that ends with one of the two extensions, cutting at the last
    dot removes the extension. *)
Lemma rsplit1_head_extension (s : str) :
  endswith s ".html" || endswith s ".xhtml" = true →
  rsplit1_head (ch ".") s = TitleDeriver.strip_extension s.
Proof.
  unfold rsplit1_head, TitleDeriver.strip_extension.
  destruct (endswith s ".html") eqn:E1; simpl.
  - intros _. apply endswith_spec in E1 as [p ->].
    rewrite (proj2 (strip_suffix_Some ".html" _ p) eq_refl).
    change (lit ".html") with (ch "." :: lit "html").
    by rewrite before_last_app.
  - intros E2. apply endswith_spec in E2 as [p ->].
    rewrite (proj2 (strip_suffix_None ".html" _) E1).
    rewrite (proj2 (strip_suffix_Some ".xhtml" _ p) eq_refl). simpl.
    change (lit ".xhtml") with (ch "." :: lit "xhtml").
    by rewrite before_last_app.
Qed.

Lemma strip_extension_other (s : str) :
  endswith s ".html" || endswith s ".xhtml" = false →
  TitleDeriver.strip_extension s = s.
Proof.
  intros [E1 E2]%orb_false_iff.
  unfold TitleDeriver.strip_extension.
  by rewrite (proj2 (strip_suffix_None ".html" _) E1),
    (proj2 (strip_suffix_None ".xhtml" _) E2).
Qed.

(** What [strip_extension] leaves is the start of the name. *)
Lemma strip_extension_prefix (s : str) :
  ∃ ext, s = TitleDeriver.strip_extension s ++ ext.
Proof.
  unfold TitleDeriver.strip_extension.
  destruct (TitleDeriver.strip_suffix ".html" s) as [p|] eqn:H1.
  { apply strip_suffix_Some in H1. eauto. }
  destruct (TitleDeriver.strip_suffix ".xhtml" s) as [p|] eqn:H2; simpl.
  { apply strip_suffix_Some in H2. eauto. }
  exists []. by rewrite app_nil_r.
Qed.

Lemma is_digit_not_dash (c : N) : is_digit c = true → (c =? ch "-")%N = false.
Proof.
  intros Hc. destruct (N.eqb_spec c (ch "-")) as [->|]; [|done].
  by vm_compute in Hc.
Qed.

(** The backtracking matcher finds a match exactly when the longest run of
    digits is followed by a dash. *)
Lemma re_more_digits_dash_spec (s : str) :
  re_more_digits_dash s =
    match TitleDeriver.after_digits is_digit s with
    | d :: r => if (d =? ch "-")%N then Some r else None
    | [] => None
    end.
Proof.
  induction s as [|c s IH]; [done|]. simpl.
  destruct (is_digit c) eqn:Hc.
  - rewrite IH. destruct (TitleDeriver.after_digits is_digit s) as [|d r].
    + by rewrite is_digit_not_dash.
    + destruct (d =? ch "-")%N; [done|]. by rewrite is_digit_not_dash.
  - done.
Qed.

Lemma re_sub_leading_number_spec (s : str) :
  re_sub_leading_number s = TitleDeriver.strip_leading_number is_digit s.
Proof.
  unfold re_sub_leading_number, re_match_digits_dash, TitleDeriver.strip_leading_number.
  destruct s as [|c s]; [done|].
  destruct (is_digit c); [|done].
  rewrite re_more_digits_dash_spec.
  destruct (TitleDeriver.after_digits is_digit s) as [|d r]; [done|].
  by destruct (d =? ch "-")%N.
Qed.

(** [strip_leading_number] removes a prefix exactly when the string is a
    non-empty run of digits, a dash and a rest, and what it leaves is the
    rest. *)
Lemma after_digits_split (s : str) :
  ∃ d, TitleDeriver.digits digit d = true ∧ s = d ++ TitleDeriver.after_digits digit s.
Proof.
  induction s as [|c s (d & Hd & IH)]; [by exists []|]. simpl.
  destruct (digit c) eqn:Hc.
  - exists (c :: d). unfold TitleDeriver.digits in *. simpl. rewrite Hc, Hd.
    by rewrite <-IH.
  - by exists [].
Qed.

Lemma after_digits_app (d r : str) :
  digit (ch "-") = false →
  TitleDeriver.digits digit d = true →
  TitleDeriver.after_digits digit (d ++ ch "-" :: r) = ch "-" :: r.
Proof.
  intros Hdash. unfold TitleDeriver.digits.
  induction d as [|c d IH]; simpl.
  - by rewrite Hdash.
  - intros [Hc Hd]%andb_true_iff. rewrite Hc. by apply IH.
Qed.

Lemma strip_leading_number_match (d r : str) :
  digit (ch "-") = false →
  d ≠ [] → TitleDeriver.digits digit d = true →
  TitleDeriver.strip_leading_number digit (d ++ ch "-" :: r) = r.
Proof.
  intros Hdash. destruct d as [|c d]; [done|]. intros _.
  unfold TitleDeriver.digits. simpl.
  intros [Hc Hd]%andb_true_iff. rewrite Hc.
  by rewrite after_digits_app.
Qed.

Lemma strip_leading_number_no_match (s : str) :
  (∀ d r, d ≠ [] → TitleDeriver.digits digit d = true → s ≠ d ++ ch "-" :: r) →
  TitleDeriver.strip_leading_number digit s = s.
Proof.
  intros Hno. destruct s as [|c s]; [done|]. simpl.
  destruct (digit c) eqn:Hc; [|done].
  destruct (after_digits_split s) as (d & Hd & Hs).
  destruct (TitleDeriver.after_digits digit s) as [|a r]; [done|].
  destruct (N.eqb_spec a (ch "-")) as [->|]; [|done].
  exfalso. apply (Hno (c :: d) r); [done| |].
  - unfold TitleDeriver.digits in *. simpl. by rewrite Hc.
  - simpl. by rewrite <-Hs.
Qed.

(** Only the characters of the string are asked whether they are digits. *)
Lemma after_digits_ext (digit' : N → bool) (s : str) :
  (∀ c, c ∈ s → digit c = digit' c) →
  TitleDeriver.after_digits digit s = TitleDeriver.after_digits digit' s.
Proof.
  induction s as [|c s IH]; [done|]. intros Hs. simpl.
  rewrite <-(Hs c) by left. rewrite IH; [done|].
  intros x Hx. apply Hs. by right.
Qed.

Lemma strip_leading_number_ext (digit' : N → bool) (s : str) :
  (∀ c, c ∈ s → digit c = digit' c) →
  TitleDeriver.strip_leading_number digit s
  = TitleDeriver.strip_leading_number digit' s.
Proof.
  destruct s as [|c s]; [done|]. intros Hs. simpl.
  rewrite <-(Hs c) by left.
  rewrite (after_digits_ext digit' s); [done|].
  intros x Hx. apply Hs. by right.
Qed.

End title.

Lemma replace_dashes (s : str) :
  replace (ch "-") (ch " ") s = TitleDeriver.dashes_to_spaces s.
Proof. induction s as [|c s IH]; [done|]. simpl. by rewrite <-IH. Qed.

Lemma lstrip_drop (s : str) : lstrip s = drop (TitleDeriver.spaces_at_start s) s.
Proof.
  induction s as [|c s IH]; [done|]. simpl. by destruct (is_space c).
Qed.

Lemma lstrip_head (s : str) (c : N) (r : str) : lstrip s = c :: r → is_space c = false.
Proof.
  induction s as [|x s IH]; [done|]. simpl.
  destruct (is_space x) eqn:Hx; [done|]. by intros [= <- _].
Qed.

Lemma rstrip_snoc (s : str) (c : N) :
  rstrip (s ++ [c]) = if is_space c then rstrip s else s ++ [c].
Proof.
  induction s as [|x s IH]; simpl.
  - by destruct (is_space c).
  - rewrite IH. destruct (is_space c) eqn:Hc; [done|].
    by destruct s.
Qed.

Lemma rstrip_take (s : str) :
  rstrip s = take (length s - TitleDeriver.spaces_at_start (reverse s)) s.
Proof.
  induction s as [|c s IH] using rev_ind; [done|].
  rewrite rstrip_snoc, reverse_snoc, length_app. simpl.
  destruct (is_space c).
  - rewrite IH. rewrite take_app_le by lia. f_equal. lia.
  - rewrite take_ge; [done|]. rewrite length_app. simpl. lia.
Qed.

Lemma spaces_at_start_app (x y : str) (c : N) :
  c ∈ x → is_space c = false →
  TitleDeriver.spaces_at_start (x ++ y) = TitleDeriver.spaces_at_start x.
Proof.
  intros Hin Hc. induction x as [|a x IH]; [by apply elem_of_nil in Hin|].
  simpl. destruct (is_space a) eqn:Ha; [|done]. f_equal. apply IH.
  apply elem_of_cons in Hin as [->|]; [congruence|done].
Qed.

(** [strip] leaves what is between the leading and the trailing white
    space. *)
Lemma strip_trim (s : str) : strip s = TitleDeriver.trim s.
Proof.
  unfold strip, TitleDeriver.trim.
  rewrite rstrip_take. pose proof (lstrip_head s) as Hhead.
  rewrite lstrip_drop in *.
  set (n := TitleDeriver.spaces_at_start s) in *.
  destruct (drop n s) as [|c r] eqn:Hd; [by rewrite !take_nil|].
  rewrite <-Hd. rewrite length_drop. f_equal. f_equal.
  rewrite <-(take_drop n s) at 2. rewrite reverse_app.
  symmetry. apply (spaces_at_start_app _ _ c); [|by eapply Hhead].
  rewrite Hd, reverse_cons. set_solver.
Qed.

Lemma chapter_title_decimal (fileName : str) :
  chapter_title fileName = TitleDeriver.derive_decimal fileName.
Proof.
  unfold chapter_title, TitleDeriver.derive_decimal, TitleDeriver.derive_with.
  rewrite strip_trim, replace_dashes, re_sub_leading_number_spec.
  destruct (endswith fileName ".html" || endswith fileName ".xhtml") eqn:Hext.
  - by rewrite rsplit1_head_extension.
  - by rewrite strip_extension_other.
Qed.

(** C8, with the digits the script has.  The title the script derives from
    a chapter's file name is a function of the file name alone (total and
    deterministic): it strips a trailing case-exact [.html] or [.xhtml],
    strips one leading run of decimal digits followed by a dash, where a
    decimal digit is any character [\d] matches and not only one of [0-9],
    turns every dash into a space and trims white space.  On a file name
    whose decimal digits are all among [0-9] this is the specification's
    [derive]; [12-chapter-one.xhtml] gives [chapter one] and [Intro.html]
    gives [Intro]. *)
Theorem chapter_title_derive :
  (∀ fileName, chapter_title fileName = TitleDeriver.derive_decimal fileName)
  ∧ (∀ fileName,
       (∀ c, c ∈ fileName → is_digit c = is_ascii_digit c) →
       chapter_title fileName = TitleDeriver.derive fileName)
  ∧ chapter_title "12-chapter-one.xhtml" = "chapter one"
  ∧ chapter_title "Intro.html" = "Intro".
Proof.
  split; [apply chapter_title_decimal|]. split; [|by vm_compute].
  intros f Hf. rewrite chapter_title_decimal.
  unfold TitleDeriver.derive_decimal, TitleDeriver.derive, TitleDeriver.derive_with.
  do 2 f_equal. apply strip_leading_number_ext.
  intros c Hc. apply Hf.
  destruct (strip_extension_prefix f) as [ext Hext]. rewrite Hext.
  apply elem_of_app. by left.
Qed.

(** ** Fixed-size batches *)

Section windows.
Context {A : Type}.
Implicit Types (lst : list A) (n k cnt : nat).

Lemma take_min_length lst n : take (n `min` length lst) lst = take n lst.
Proof.
  destruct (decide (n ≤ length lst)%nat).
  - by rewrite Nat.min_l.
  - rewrite Nat.min_r by lia. rewrite !take_ge by lia. done.
Qed.

Lemma slice_window lst (size : Z) k :
  1 ≤ size →
  slice lst (Z.of_nat k * size) (Z.of_nat k * size + size) = window lst (Z.to_nat size) k.
Proof.
  intros Hsize. unfold slice, window, clamp_index.
  assert (Z.of_nat k * size = Z.of_nat (k * Z.to_nat size)) as -> by nia.
  set (m := (k * Z.to_nat size)%nat).
  assert ((Z.of_nat m <? 0) = false) as -> by lia.
  assert ((Z.of_nat m + size <? 0) = false) as -> by lia.
  destruct (decide (m ≤ length lst)%nat) as [Hle|Hgt].
  - rewrite (Z.min_l (Z.of_nat m)) by lia. rewrite Nat2Z.id.
    rewrite <-(take_min_length (drop m lst) (Z.to_nat size)), length_drop.
    f_equal. lia.
  - rewrite !Z.min_r by lia. rewrite Z.sub_diag. simpl.
    rewrite (drop_ge lst m) by lia. by rewrite take_nil.
Qed.

Lemma concat_windows lst n cnt :
  concat (window lst n <$> seq 0 cnt) = take (cnt * n) lst.
Proof.
  induction cnt as [|cnt IH]; [done|].
  rewrite seq_S, fmap_app, concat_app, IH. simpl.
  rewrite app_nil_r. unfold window. rewrite take_take_drop. f_equal. lia.
Qed.

Lemma window_lookup lst n k (j : nat) x :
  window lst n k !! j = Some x → lst !! (k * n + j)%nat = Some x.
Proof.
  unfold window. intros [Hj Hx]%lookup_take_Some. by rewrite lookup_drop in Hj.
Qed.

Lemma length_window lst n k :
  length (window lst n k) = (n `min` (length lst - k * n))%nat.
Proof. unfold window. by rewrite length_take, length_drop. Qed.
End windows.

(** The number of starts [range(0, len, size)] yields is the number of
    windows needed to cover [len] elements: the last start is within the
    list, and the windows reach its end. *)
Lemma range_len_cover (len : nat) (size : Z) :
  1 ≤ size →
  let cnt := range_len 0 (Z.of_nat len) size in
  (len ≤ cnt * Z.to_nat size)%nat
  ∧ ∀ k, (k < cnt)%nat → (k * Z.to_nat size < len)%nat.
Proof.
  intros Hsize. cbv zeta. unfold range_len.
  destruct (Z.ltb_spec 0 size) as [_|?]; [|lia].
  replace (Z.of_nat len - 0 - 1) with (Z.of_nat len - 1) by lia.
  destruct (Z.ltb_spec 0 (Z.of_nat len)) as [Hlen|Hlen].
  - pose proof (Z.div_mod (Z.of_nat len - 1) size ltac:(lia)) as Hdm.
    pose proof (Z.mod_pos_bound (Z.of_nat len - 1) size ltac:(lia)) as Hmod.
    assert (0 ≤ (Z.of_nat len - 1) / size) by (apply Z.div_pos; lia).
    split; [nia|]. intros k Hk. nia.
  - split; [lia|]. intros k Hk. lia.
Qed.

Lemma chunks_windows {A} (lst : list A) (size : Z) :
  1 ≤ size →
  chunks lst size =
    Ok (window lst (Z.to_nat size) <$> seq 0 (range_len 0 (Z.of_nat (length lst)) size)).
Proof.
  intros Hsize. unfold chunks, range.
  assert ((size =? 0) = false) as -> by lia. simpl. f_equal.
  rewrite <-list_fmap_compose. apply list_fmap_ext.
  intros i k _. simpl. rewrite Z.add_0_l. by apply slice_window.
Qed.

(** C2. For a batch size of at least 1, [chunks] succeeds and cuts the
    sequence into the contiguous windows [1..size], [size+1..2*size], ... in
    order: batch [k] (counting from 0) is the window of [size] elements that
    starts at position [k*size + 1], every batch is non-empty and has at most
    [size] elements, every batch but the last has exactly [size], and the
    concatenation of the batches is the sequence itself. *)
Theorem chunks_fixed_windows {A} (lst : list A) (size : Z) :
  1 ≤ size →
  ∃ batches,
    chunks lst size = Ok batches
    ∧ concat batches = lst
    ∧ ∀ (k : nat) (b : list A), batches !! k = Some b →
        b = take (Z.to_nat size) (drop (k * Z.to_nat size) lst)
        ∧ (1 ≤ length b ≤ Z.to_nat size)%nat
        ∧ ((S k < length batches)%nat → length b = Z.to_nat size)
        ∧ ∀ (j : nat) x, b !! j = Some x → lst !! (k * Z.to_nat size + j)%nat = Some x.
Proof.
  intros Hsize. eexists. split; [by apply chunks_windows|].
  destruct (range_len_cover (length lst) size Hsize) as [Hcover Hlast].
  set (cnt := range_len 0 (Z.of_nat (length lst)) size) in *.
  split.
  - rewrite concat_windows. by apply take_ge.
  - intros k b Hb. apply list_lookup_fmap_Some in Hb as (k' & -> & Hk').
    apply lookup_seq in Hk' as [-> Hk]. simpl.
    split; [done|]. rewrite length_window.
    pose proof (Hlast k Hk). split; [lia|]. split.
    + rewrite length_fmap, length_seq. intros HS. pose proof (Hlast (S k) HS). lia.
    + apply window_lookup.
Qed.


(** ** An explicit range *)

Lemma slice_range {A} (l : list A) (start end_ : Z) :
  1 ≤ start → start ≤ end_ → end_ ≤ Z.of_nat (length l) →
  slice l (start - 1) end_
  = take (Z.to_nat (end_ - start + 1)) (drop (Z.to_nat (start - 1)) l).
Proof.
  intros H1 H2 H3. unfold slice, clamp_index.
  assert ((start - 1 <? 0) = false) as -> by lia.
  assert ((end_ <? 0) = false) as -> by lia.
  rewrite !Z.min_l by lia. do 2 f_equal. lia.
Qed.

(** C3. With an explicit range [(start, end)] over [L] chapters the script
    raises the invalid-range error exactly when [start < 1], [end > L] or
    [start > end]; otherwise it makes exactly one batch, which holds the
    chapters at the original positions [start..end] inclusive, in order, and
    the positions declared for that batch are the requested [(start, end)]. *)
Theorem single_range_spec (cfg : config.t) (chapters : list chapter) (start end_ : Z) :
  config.singlerange cfg = Some (start, end_) →
  ((∃ e, chapter_batches cfg chapters = Raise e)
     ↔ start < 1 ∨ Z.of_nat (length chapters) < end_ ∨ end_ < start)
  ∧ (start < 1 ∨ Z.of_nat (length chapters) < end_ ∨ end_ < start →
       chapter_batches cfg chapters = Raise (invalid_range start end_ (length chapters)))
  ∧ (¬ (start < 1 ∨ Z.of_nat (length chapters) < end_ ∨ end_ < start) →
       ∃ batch,
         chapter_batches cfg chapters = Ok [batch]
         ∧ Z.of_nat (length batch) = end_ - start + 1
         ∧ (∀ j : nat, (j < length batch)%nat →
              batch !! j = chapters !! (Z.to_nat (start - 1) + j)%nat)
         ∧ ∀ i : nat, start_chapter cfg i = start ∧ end_chapter cfg i batch = end_).
Proof.
  intros Hcfg. unfold chapter_batches, start_chapter, end_chapter. rewrite Hcfg.
  destruct ((start <? 1) || (Z.of_nat (length chapters) <? end_) || (end_ <? start))
    eqn:Hbad.
  - assert (start < 1 ∨ Z.of_nat (length chapters) < end_ ∨ end_ < start) as Hcond.
    { apply orb_true_iff in Hbad as [[?|?]%orb_true_iff|?]; lia. }
    split; [|split]; [split; eauto| done | done].
  - assert (¬ (start < 1 ∨ Z.of_nat (length chapters) < end_ ∨ end_ < start)) as Hcond.
    { apply orb_false_iff in Hbad as [[? ?]%orb_false_iff ?]. lia. }
    split; [|split].
    + split; [intros [e [=]]|done].
    + done.
    + intros _. eexists. split; [done|].
      rewrite slice_range by lia.
      split; [rewrite length_take, length_drop; lia|].
      split; [|done].
      intros j Hj. rewrite length_take in Hj.
      rewrite lookup_take_lt by lia. by rewrite lookup_drop.
Qed.


(** ** The batch size and the empty book *)

Lemma chunks_zero {A} (lst : list A) : chunks lst 0 = Raise range_step_zero.
Proof. reflexivity. Qed.

Lemma chunks_negative {A} (lst : list A) (size : Z) : size < 0 → chunks lst size = Ok [].
Proof.
  intros Hsize. unfold chunks, range, range_len.
  assert ((size =? 0) = false) as -> by lia.
  assert ((0 <? size) = false) as -> by lia.
  assert ((Z.of_nat (length lst) <? 0) = false) as -> by (apply Z.ltb_ge; lia).
  reflexivity.
Qed.

Lemma chunks_nil {A} (size : Z) : size ≠ 0 → chunks (@nil A) size = Ok [].
Proof.
  intros Hsize. unfold chunks, range, range_len.
  assert ((size =? 0) = false) as -> by lia.
  simpl. by destruct (0 <? size).
Qed.

Lemma invalid_range_not_step_zero (start end_ : Z) (total : nat) :
  invalid_range start end_ total ≠ range_step_zero.
Proof.
  unfold invalid_range, range_step_zero. by intros [= H].
Qed.

Implicit Types (cfg : config.t) (z : list zip_entry) (fs : file_system).

Lemma run_raise cfg z fs e :
  chapter_batches cfg (extract_chapters z) = Raise e →
  run cfg z fs = Outcome fs (Some e).
Proof. unfold run. by intros ->. Qed.

Lemma run_no_batch cfg z fs :
  chapter_batches cfg (extract_chapters z) = Ok [] →
  run cfg z fs = Outcome fs None.
Proof. unfold run. by intros ->. Qed.

Lemma run_ok cfg z fs batches :
  chapter_batches cfg (extract_chapters z) = Ok batches →
  run cfg z fs
  = write_parts cfg (get_base_name (config.epub cfg)) (output_dir cfg) (find_cover z) fs
      (enumerate 1 batches).
Proof. unfold run. by intros ->. Qed.

(** The write loop raises nothing but the error of a path that cannot be
    opened. *)
Lemma write_parts_raised cfg (base_name dir : str) (c : cover) fs parts (e : exn) :
  raised (write_parts cfg base_name dir c fs parts) = Some e →
  ∃ i batch,
    (i, batch) ∈ parts
    ∧ can_open dir (output_name cfg base_name dir i batch) = false
    ∧ e = OSError (output_name cfg base_name dir i batch).
Proof.
  revert fs. induction parts as [|[i batch] parts IH]; intros fs; [done|].
  simpl. destruct (can_open _ _) eqn:Hopen.
  - intros (i' & batch' & Hin & H)%IH. exists i', batch'. split; [by right|done].
  - simpl. intros [= <-]. exists i, batch. split; [by left|done].
Qed.

Lemma run_no_value_error cfg z fs batches (msg : str) :
  chapter_batches cfg (extract_chapters z) = Ok batches →
  raised (run cfg z fs) ≠ Some (ValueError msg).
Proof.
  intros Hb. rewrite (run_ok _ _ _ _ Hb).
  by intros (i & batch & _ & _ & [=])%write_parts_raised.
Qed.

(** C5, as the script has it.  Without an explicit range: a batch size of 0
    ends the run with the error of [range] and the file system untouched; a
    negative batch size raises nothing, makes no batch and writes no file;
    a batch size of at least 1 raises no [ValueError].  With or without a
    range, a batch size of at least 1 never raises the zero-step error.  With
    an explicit range the batch size is not looked at: whether the run raises
    a [ValueError] depends on the bounds and the number of chapters only. *)
Theorem batch_size_validation cfg z fs :
  (config.singlerange cfg = None → config.splitsize cfg = 0 →
     run cfg z fs = Outcome fs (Some range_step_zero))
  ∧ (config.singlerange cfg = None → config.splitsize cfg < 0 →
     run cfg z fs = Outcome fs None)
  ∧ (config.singlerange cfg = None → 1 ≤ config.splitsize cfg →
     ∀ msg, raised (run cfg z fs) ≠ Some (ValueError msg))
  ∧ (1 ≤ config.splitsize cfg →
     raised (run cfg z fs) ≠ Some range_step_zero)
  ∧ (∀ start end_, config.singlerange cfg = Some (start, end_) →
     if (start <? 1) || (Z.of_nat (length (extract_chapters z)) <? end_)
        || (end_ <? start)
     then run cfg z fs
          = Outcome fs (Some (invalid_range start end_ (length (extract_chapters z))))
     else ∀ msg, raised (run cfg z fs) ≠ Some (ValueError msg)).
Proof.
  split; [|split; [|split; [|split]]]; cycle 4.
  { intros start end_ Hr.
    destruct (_ || _) eqn:Hbad.
    - apply run_raise. unfold chapter_batches. by rewrite Hr, Hbad.
    - intros msg. eapply run_no_value_error. unfold chapter_batches.
      by rewrite Hr, Hbad. }
  - intros Hr Hs. apply run_raise. unfold chapter_batches. rewrite Hr, Hs.
    apply chunks_zero.
  - intros Hr Hs. apply run_no_batch. unfold chapter_batches. rewrite Hr.
    by apply chunks_negative.
  - intros Hr Hs msg.
    eapply run_no_value_error. unfold chapter_batches. rewrite Hr.
    by apply chunks_windows.
  - intros Hs.
    destruct (chapter_batches cfg (extract_chapters z)) as [bs|e] eqn:Hb.
    { by eapply run_no_value_error. }
    rewrite (run_raise _ _ _ _ Hb). simpl. intros [= ->].
    unfold chapter_batches in Hb. destruct (config.singlerange cfg) as [[start end_]|].
    + destruct (_ || _) in Hb; [|done].
      apply (invalid_range_not_step_zero start end_ (length (extract_chapters z))).
      congruence.
    + by rewrite chunks_windows in Hb.
Qed.

(** C9, for a batch size that is not zero.  When no chapter was extracted:
    without an explicit range and with a batch size other than 0 there is no
    batch, the run raises nothing and writes no file; with an explicit
    range, whatever its bounds, the run ends with the invalid-range error
    and writes no file. *)
Theorem empty_book cfg z fs :
  extract_chapters z = [] →
  (config.singlerange cfg = None → config.splitsize cfg ≠ 0 →
     chapter_batches cfg [] = Ok []
     ∧ run cfg z fs = Outcome fs None)
  ∧ (∀ start end_, config.singlerange cfg = Some (start, end_) →
     chapter_batches cfg [] = Raise (invalid_range start end_ 0)
     ∧ run cfg z fs = Outcome fs (Some (invalid_range start end_ 0))).
Proof.
  intros Hz. split.
  - intros Hr Hs.
    assert (chapter_batches cfg [] = Ok []) as Hb.
    { unfold chapter_batches. rewrite Hr. by apply chunks_nil. }
    split; [done|]. apply run_no_batch. by rewrite Hz.
  - intros start end_ Hr.
    assert (chapter_batches cfg [] = Raise (invalid_range start end_ 0)) as Hb.
    { unfold chapter_batches. rewrite Hr.
      destruct (_ || _) eqn:Hbad; [done|].
      apply orb_false_iff in Hbad as [[H1 H2]%orb_false_iff H3].
      apply Z.ltb_ge in H1, H2, H3. simpl in H2. lia. }
    split; [done|]. apply run_raise. by rewrite Hz.
Qed.

(** ** The loops over a batch *)

Lemma enumerate_cons {A} (s : nat) (x : A) (l : list A) :
  enumerate s (x :: l) = (s, x) :: enumerate (S s) l.
Proof. reflexivity. Qed.

Lemma enumerate_lookup {A} (s : nat) (l : list A) (k : nat) :
  enumerate s l !! k = (λ x, ((s + k)%nat, x)) <$> l !! k.
Proof.
  revert s k. induction l as [|x l IH]; intros s [|k]; try done.
  - simpl. by rewrite Nat.add_0_r.
  - rewrite enumerate_cons. simpl. rewrite IH. by rewrite Nat.add_succ_r.
Qed.

Lemma length_enumerate {A} (s : nat) (l : list A) : length (enumerate s l) = length l.
Proof.
  unfold enumerate. rewrite length_zip_with, length_seq. lia.
Qed.

Lemma last_enumerate {A} (s : nat) (l : list A) :
  last (enumerate s l) = (λ x, ((s + length l - 1)%nat, x)) <$> last l.
Proof.
  rewrite !last_lookup, enumerate_lookup, length_enumerate.
  destruct l as [|x l]; [done|]. simpl.
  destruct (_ !! _); simpl; [|done]. do 2 f_equal. lia.
Qed.

Lemma enumerate_lookup_Some {A} (l : list A) (j i : nat) (x : A) :
  enumerate 1 l !! j = Some (i, x) ↔ i = S j ∧ l !! j = Some x.
Proof.
  rewrite enumerate_lookup. destruct (l !! j) as [y|]; simpl.
  - split; [by intros [= <- <-]|by intros [-> [= ->]]].
  - split; [done|by intros [_ ?]].
Qed.

Lemma join_app (l1 l2 : list str) : join (l1 ++ l2) = join l1 ++ join l2.
Proof. apply concat_app. Qed.

Lemma part_of_refl (s : str) : part_of s s.
Proof. exists [], []. by rewrite app_nil_r. Qed.

Lemma part_of_app (sub s a b : str) : part_of sub s → part_of sub (a ++ s ++ b).
Proof.
  intros (pre & post & ->). exists (a ++ pre), (post ++ b).
  by rewrite <-!app_assoc.
Qed.

Lemma part_of_app_l (sub s b : str) : part_of sub s → part_of sub (s ++ b).
Proof. intros H. by apply (part_of_app sub s [] b). Qed.

Lemma part_of_app_r (sub s a : str) : part_of sub s → part_of sub (a ++ s).
Proof.
  intros H. apply (part_of_app sub s a []) in H. by rewrite app_nil_r in H.
Qed.

Lemma part_of_trans (a b c : str) : part_of a b → part_of b c → part_of a c.
Proof. intros Hab (pre & post & ->). by apply part_of_app. Qed.

Lemma part_of_prefix (sub s : str) : sub `prefix_of` s → part_of sub s.
Proof. intros [post ->]. by exists [], post. Qed.

(** [sub] is found in a text written as a chain of pieces: at the start of
    the chain, or further on. *)
Ltac prefix_chain :=
  solve [ repeat apply prefix_app;
          first [ apply prefix_app_r; reflexivity | reflexivity ] ].

Ltac find_part :=
  rewrite <-?app_assoc;
  repeat first [ apply part_of_prefix; prefix_chain | apply part_of_app_r ].

(** A string of a list is a part of the list's concatenation. *)
Lemma join_lookup (l : list str) (k : nat) (x : str) :
  l !! k = Some x → part_of x (join l).
Proof.
  intros Hk. exists (join (take k l)), (join (drop (S k) l)).
  rewrite <-(take_drop_middle l k x Hk) at 1.
  by rewrite join_app.
Qed.

(** The chapter loop, from any state and any first index: it appends one
    manifest item and one spine item per chapter, numbered from the first
    index, and one member per chapter, in the order of the batch. *)
Lemma chapter_loop_from (s : nat) (st : loop_state) (batch : list chapter) :
  foldl chapter_step st (enumerate s batch) =
    LoopState
      (manifest_items st ++ join (imap (λ k chap, manifest_item (s + k) chap) batch))
      (spine_items st ++ join (imap (λ k _, spine_item (s + k)) batch))
      (outzip st ++ (chapter_member <$> batch)).
Proof.
  revert s st. induction batch as [|chap batch IH]; intros s st.
  - simpl. rewrite !app_nil_r. by destruct st.
  - rewrite enumerate_cons. simpl foldl. rewrite IH.
    cbn [manifest_items spine_items outzip]. unfold writestr.
    cbn [imap join concat fmap list_fmap default].
    rewrite Nat.add_0_r, <-!app_assoc. f_equal.
    + do 2 f_equal. unfold join. f_equal.
      apply imap_ext. intros k x _. simpl. by rewrite Nat.add_succ_r.
    + do 2 f_equal. unfold join. f_equal.
      apply imap_ext. intros k x _. simpl. by rewrite Nat.add_succ_r.
Qed.

Lemma nav_loop_from (s : nat) (acc : str) (nav_index : nat) (batch : list chapter) :
  foldl nav_step (acc, nav_index) (enumerate s batch) =
    (acc ++ join (imap (λ k chap, nav_point (nav_index + k) chap) batch),
     (nav_index + length batch)%nat).
Proof.
  revert s acc nav_index. induction batch as [|chap batch IH]; intros s acc nav_index.
  - simpl. by rewrite app_nil_r, Nat.add_0_r.
  - rewrite enumerate_cons. simpl foldl. rewrite IH.
    cbn [imap join concat length].
    rewrite Nat.add_0_r, <-!app_assoc. f_equal.
    + do 2 f_equal. unfold join. f_equal.
      apply imap_ext. intros k x _. simpl. f_equal. lia.
    + lia.
Qed.

Lemma manifest_of_eq (c : cover) (batch : list chapter) :
  manifest_of c batch =
    manifest_head c ++ join (imap (λ k chap, manifest_item (S k) chap) batch) ++ ncx_item.
Proof.
  unfold manifest_of, chapter_loop. rewrite chapter_loop_from. simpl.
  by rewrite <-app_assoc.
Qed.

Lemma spine_of_eq (c : cover) (batch : list chapter) :
  spine_of c batch = join (imap (λ k _, spine_item (S k)) batch).
Proof.
  unfold spine_of, chapter_loop. by rewrite chapter_loop_from.
Qed.

Lemma nav_points_eq (c : cover) (batch : list chapter) :
  nav_points c batch = nav_head c ++ join (imap (λ k chap, nav_point (S k) chap) batch).
Proof.
  unfold nav_points, nav_head. rewrite nav_loop_from. simpl.
  destruct (cover_image_name c) as [n|]; [|done].
  by destruct (truthy_str n).
Qed.

Lemma outzip_before_chapters (c : cover) :
  outzip (before_chapters c) =
    [Member "mimetype" (Text "application/epub+zip") ZIP_STORED;
     Member "META-INF/container.xml" (Text container_xml) ZIP_STORED]
    ++ cover_members c
    ++ [Member "styles.css" (Text css_content) ZIP_STORED].
Proof.
  unfold before_chapters, cover_members, writestr.
  destruct (cover_image c) as [[|b0 b]|], (cover_image_name c) as [n|]; try done.
  simpl. by destruct (truthy_str n).
Qed.

(** The members of a written container, in the order they are written. *)
Lemma write_epub_members (cfg : config.t) (base_name : str) (c : cover) (i : nat)
    (batch : list chapter) :
  write_epub cfg base_name c i batch =
    [Member "mimetype" (Text "application/epub+zip") ZIP_STORED;
     Member "META-INF/container.xml" (Text container_xml) ZIP_STORED]
    ++ cover_members c
    ++ [Member "styles.css" (Text css_content) ZIP_STORED]
    ++ (chapter_member <$> batch)
    ++ [Member "content.opf"
          (Text (content_opf (metadata c (part_title cfg base_name i batch) base_name i)
                             (manifest_of c batch) (spine_of c batch)))
          ZIP_STORED;
        Member "toc.ncx"
          (Text (toc_ncx base_name i (part_title cfg base_name i batch)
                         (nav_points c batch)))
          ZIP_STORED].
Proof.
  unfold write_epub, manifest_of, spine_of, chapter_loop.
  rewrite chapter_loop_from. unfold writestr.
  cbn [outzip manifest_items spine_items default].
  rewrite outzip_before_chapters. by rewrite <-!app_assoc.
Qed.

(** The two documents of a package, cut at the elements that hold the
    manifest, the spine and the navigation points. *)
Lemma content_opf_elements (metadata manifest_items spine_items : str) :
  ∃ head,
    content_opf metadata manifest_items spine_items
    = head ++ manifest_element manifest_items ++ spine_element spine_items ++ "</package>".
Proof.
  unfold content_opf, manifest_element, spine_element.
  eexists ("<?xml version=" ++ q "1.0" ++ " encoding=" ++ q "UTF-8" ++ "?>" ++ nl
           ++ "<package xmlns=" ++ q "http://www.idpf.org/2007/opf"
           ++ " unique-identifier=" ++ q "BookId" ++ " version=" ++ q "2.0" ++ ">" ++ nl
           ++ metadata ++ nl).
  by rewrite <-!app_assoc.
Qed.

Lemma toc_ncx_elements (base_name : str) (i : nat) (part_title nav_points : str) :
  ∃ head,
    toc_ncx base_name i part_title nav_points
    = head ++ "  <docTitle><text>" ++ part_title ++ "</text></docTitle>" ++ nl
      ++ nav_map nav_points ++ "</ncx>".
Proof.
  unfold toc_ncx, nav_map.
  eexists ("<?xml version=" ++ q "1.0" ++ " encoding=" ++ q "UTF-8" ++ "?>" ++ nl
           ++ "<ncx xmlns=" ++ q "http://www.daisy.org/z3986/2005/ncx/" ++ " version="
           ++ q "2005-1" ++ ">" ++ nl
           ++ "  <head>" ++ nl
           ++ "    <meta name=" ++ q "dtb:uid" ++ " content="
           ++ q (base_name ++ "_part_" ++ str_of_nat i) ++ "/>" ++ nl
           ++ "    <meta name=" ++ q "dtb:depth" ++ " content=" ++ q "1" ++ "/>" ++ nl
           ++ "    <meta name=" ++ q "dtb:totalPageCount" ++ " content=" ++ q "0" ++ "/>" ++ nl
           ++ "    <meta name=" ++ q "dtb:maxPageNumber" ++ " content=" ++ q "0" ++ "/>" ++ nl
           ++ "  </head>" ++ nl).
  by rewrite <-!app_assoc.
Qed.

Lemma metadata_title (c : cover) (part_title base_name : str) (i : nat) :
  part_of ("    <dc:title>" ++ part_title ++ "</dc:title>" ++ nl)
          (metadata c part_title base_name i).
Proof.
  unfold metadata. destruct (truthy (cover_image_name c)); find_part.
Qed.

Lemma content_opf_metadata (metadata manifest_items spine_items : str) :
  part_of metadata (content_opf metadata manifest_items spine_items).
Proof.
  unfold content_opf. find_part.
Qed.

(** Every package shows its display title in both documents. *)
Lemma write_epub_shows_title (cfg : config.t) (base_name : str) (c : cover) (i : nat)
    (batch : list chapter) :
  shows_title (part_title cfg base_name i batch) (write_epub cfg base_name c i batch).
Proof.
  rewrite write_epub_members. eexists _, _. split; [|split; [|split]].
  - rewrite !elem_of_app. do 3 right. right. apply list_elem_of_here.
  - eapply part_of_trans; [apply metadata_title|apply content_opf_metadata].
  - rewrite !elem_of_app. do 3 right. right. apply list_elem_of_further, list_elem_of_here.
  - unfold toc_ncx. find_part.
Qed.

(** ** Identifiers *)

Lemma str_of_int_inj (n m : Z) : str_of_int n = str_of_int m → n = m.
Proof.
  unfold str_of_int. intros H%lit_inj. apply DecimalZ.to_int_inj.
  assert (Some (Z.to_int n) = Some (Z.to_int m)) as [= ->]; [|done].
  by rewrite <-!NilEmpty.isi, H.
Qed.

Lemma str_of_nat_inj (n m : nat) : str_of_nat n = str_of_nat m → n = m.
Proof. unfold str_of_nat. intros H%str_of_int_inj. lia. Qed.

Lemma chap_id_inj (n m : nat) : chap_id n = chap_id m → n = m.
Proof.
  unfold chap_id. intros H. apply str_of_nat_inj.
  by apply app_inv_head in H.
Qed.

Lemma chap_id_fresh (n : nat) :
  chap_id n ≠ "cover" ∧ chap_id n ≠ "css" ∧ chap_id n ≠ "ncx".
Proof.
  unfold chap_id. change (lit "chap") with (ch "c" :: ch "h" :: lit "ap").
  change (lit "cover") with (ch "c" :: ch "o" :: lit "ver").
  change (lit "css") with (ch "c" :: ch "s" :: lit "s").
  change (lit "ncx") with (ch "n" :: ch "c" :: lit "x").
  repeat split; intros H; simpl in H; injection H as H1 H2; by vm_compute in H1, H2.
Qed.

(** ** The references to a chapter *)

(** C1. In the container built for any batch, the chapter at position
    [k + 1] of the batch is referred to from both documents of the package.
    The text written as [content.opf] ends with the manifest element and the
    spine element; the manifest has an item with id [chap{k+1}] and the
    chapter's file name as href; the spine has an itemref with the idref
    [chap{k+1}]; the text written as [toc.ncx] ends with the navigation map,
    which has a navigation point that targets the file name.  The spine is
    made of the chapter itemrefs [chap1..chap{len}] and nothing else; the
    ids of distinct positions differ, and none is the id of the cover,
    stylesheet or navigation item.  The numbering is that of the batch: in
    the batch number [j] (from 0) of a fixed-size split the chapter is at
    position [j*size + k + 1] of the book and still gets [chap{k+1}]. *)
Theorem chapter_references (cfg : config.t) (base_name : str) (c : cover) (i : nat)
    (batch : list chapter) (k : nat) (chap : chapter) :
  batch !! k = Some chap →
  ∃ opf ncx : str,
    Member "content.opf" (Text opf) ZIP_STORED ∈ write_epub cfg base_name c i batch
    ∧ Member "toc.ncx" (Text ncx) ZIP_STORED ∈ write_epub cfg base_name c i batch
    ∧ (∃ head, opf = head ++ manifest_element (manifest_of c batch)
                     ++ spine_element (spine_of c batch) ++ "</package>")
    ∧ (∃ head, ncx = head ++ nav_map (nav_points c batch) ++ "</ncx>")
    ∧ part_of ("<item id=" ++ q (chap_id (S k)) ++ " href=" ++ q (file_name chap)
               ++ " media-type=" ++ q "application/xhtml+xml" ++ "/>" ++ nl)
              (manifest_of c batch)
    ∧ part_of ("<itemref idref=" ++ q (chap_id (S k)) ++ "/>" ++ nl) (spine_of c batch)
    ∧ spine_of c batch
      = join ((λ n, "<itemref idref=" ++ q (chap_id n) ++ "/>" ++ nl)
                <$> seq 1 (length batch))
    ∧ part_of ("    <navPoint id=" ++ q ("navPoint-" ++ str_of_nat (S k))
               ++ " playOrder=" ++ q (str_of_nat (S k)) ++ ">" ++ nl
               ++ "      <navLabel><text>" ++ title chap ++ "</text></navLabel>" ++ nl
               ++ "      <content src=" ++ q (file_name chap) ++ "/>" ++ nl
               ++ "    </navPoint>")
              (nav_points c batch)
    ∧ part_of (manifest_item (S k) chap) opf
    ∧ part_of (spine_item (S k)) opf
    ∧ part_of (nav_point (S k) chap) ncx
    ∧ (∀ n m : nat, chap_id n = chap_id m → n = m)
    ∧ (∀ n : nat, chap_id n ≠ "cover" ∧ chap_id n ≠ "css" ∧ chap_id n ≠ "ncx")
    ∧ (∀ (chapters : list chapter) (size : Z) (batches : list (list chapter)) (j : nat),
         1 ≤ size → chunks chapters size = Ok batches → batches !! j = Some batch →
         chapters !! (j * Z.to_nat size + k)%nat = Some chap).
Proof.
  intros Hk.
  assert (part_of (manifest_item (S k) chap) (manifest_of c batch)) as Hmanifest.
  { rewrite manifest_of_eq. apply part_of_app, (join_lookup _ k).
    by rewrite list_lookup_imap, Hk. }
  assert (part_of (spine_item (S k)) (spine_of c batch)) as Hspine.
  { rewrite spine_of_eq. apply (join_lookup _ k). by rewrite list_lookup_imap, Hk. }
  assert (part_of (nav_point (S k) chap) (nav_points c batch)) as Hnav.
  { rewrite nav_points_eq. apply part_of_app_r, (join_lookup _ k).
    by rewrite list_lookup_imap, Hk. }
  destruct (content_opf_elements
              (metadata c (part_title cfg base_name i batch) base_name i)
              (manifest_of c batch) (spine_of c batch)) as [opf_head Hopf].
  destruct (toc_ncx_elements base_name i (part_title cfg base_name i batch)
              (nav_points c batch)) as [ncx_head Hncx].
  eexists _, _. rewrite write_epub_members.
  split; [|split].
  { rewrite !elem_of_app. do 3 right. right. apply list_elem_of_here. }
  { rewrite !elem_of_app. do 3 right. right. apply list_elem_of_further, list_elem_of_here. }
  split; [by exists opf_head|]. split.
  { rewrite Hncx.
    exists (ncx_head ++ "  <docTitle><text>" ++ part_title cfg base_name i batch
            ++ "</text></docTitle>" ++ nl).
    by rewrite <-!app_assoc. }
  split; [exact Hmanifest|]. split; [exact Hspine|]. split.
  { rewrite spine_of_eq. unfold join. f_equal. apply (imap_seq batch spine_item 1). }
  split.
  { destruct Hnav as (pre & post & ->). exists (pre ++ nl), post.
    unfold nav_point. by rewrite <-!app_assoc. }
  split; [|split; [|split; [|split; [|split]]]].
  - rewrite Hopf. apply part_of_app_r, part_of_app_l. unfold manifest_element.
    by do 3 apply part_of_app_r; apply part_of_app_l.
  - rewrite Hopf. do 2 apply part_of_app_r. apply part_of_app_l. unfold spine_element.
    by do 5 apply part_of_app_r; apply part_of_app_l.
  - rewrite Hncx. do 5 apply part_of_app_r. apply part_of_app_l. unfold nav_map.
    by do 3 apply part_of_app_r; apply part_of_app_l.
  - apply chap_id_inj.
  - apply chap_id_fresh.
  - intros chapters size batches j Hsize Hchunks Hj.
    rewrite chunks_windows in Hchunks by done. injection Hchunks as <-.
    apply list_lookup_fmap_Some in Hj as (j' & -> & Hj').
    apply lookup_seq in Hj' as [-> _]. by apply window_lookup.
Qed.

(** ** The cover search *)

(** The search returns the first member, in the order of the container's
    listing, whose name passes the test of line 102. *)
Lemma find_cover_first (z : list zip_entry) (pre post : list str) (e : str) :
  namelist z = pre ++ e :: post →
  Forall (λ f, is_cover_name f = false) pre →
  is_cover_name e = true →
  find_cover z =
    Cover (Some (zread z e)) (Some (base_of e)) (media_type_of (base_of e)).
Proof.
  unfold find_cover. intros -> Hpre He. generalize z.
  induction Hpre as [|f pre Hf _ IH]; intros z'; simpl.
  - by rewrite He.
  - by rewrite Hf.
Qed.

Lemma find_cover_none (z : list zip_entry) :
  Forall (λ f, is_cover_name f = false) (namelist z) →
  find_cover z = Cover None None None.
Proof.
  unfold find_cover. generalize z at 2. intros z' H.
  induction H as [|f l Hf _ IH]; simpl; [done|]. by rewrite Hf.
Qed.

(** Two suffixes of one string that have the same length are equal. *)
Lemma endswith_same_length (s a b : str) :
  endswith s a = true → endswith s b = true →
  length a = length b → a = b.
Proof.
  intros [p ->]%endswith_spec [p' H]%endswith_spec Hlen.
  by apply app_inj_2 in H as [_ ->].
Qed.

Lemma endswith_tail (s : str) (c : N) (a : str) :
  endswith s (c :: a) = true → endswith s a = true.
Proof.
  intros [p ->]%endswith_spec. apply endswith_spec.
  exists (p ++ [c]). by rewrite <-app_assoc.
Qed.

(** Two literals of one length do not end the same string unless they are
    the same literal. *)
Lemma endswith_literals (s : str) (a b : string) :
  endswith s a = true → endswith s b = true →
  length (lit a) = length (lit b) → a = b.
Proof. intros Ha Hb Hlen. apply lit_inj. by apply (endswith_same_length s). Qed.

(** The media type follows the extension when the name spells it in lower
    case. *)
Lemma media_type_of_lower (name : str) :
  (endswith name ".jpg" = true ∨ endswith name ".jpeg" = true →
     media_type_of name = Some (lit "image/jpeg"))
  ∧ (endswith name ".png" = true → media_type_of name = Some (lit "image/png")).
Proof.
  unfold media_type_of. split.
  - intros [-> | ->]; [done|]. by rewrite orb_true_r.
  - intros Hpng. rewrite Hpng.
    destruct (endswith name ".jpg") eqn:E1.
    { by pose proof (endswith_literals _ _ _ E1 Hpng eq_refl). }
    destruct (endswith name ".jpeg") eqn:E2; [|done].
    change (lit ".jpeg") with (ch "." :: lit "jpeg") in E2.
    apply endswith_tail in E2.
    by pose proof (endswith_literals _ _ _ E2 Hpng eq_refl).
Qed.

(** ** The order of the chapters *)

Lemma str_le_total : Total str_le.
Proof.
  intros a. unfold str_le. induction a as [|x a IH]; intros [|y b]; simpl; auto.
  destruct (N.ltb_spec x y) as [Hxy|Hxy]; [by left|].
  destruct (N.ltb_spec y x) as [Hyx|Hyx]; [by right|].
  assert (x = y) as -> by lia. rewrite N.eqb_refl. simpl. apply IH.
Qed.

(** ** Base names *)

Lemma contains_sep_cons (sep c : N) (s : str) :
  contains [sep] (c :: s) = (sep =? c)%N || contains [sep] s.
Proof. simpl. destruct s; by rewrite andb_true_r. Qed.

(** What [split] leaves last: the whole string when it has no separator,
    and otherwise the text after a prefix that ends with the separator; in
    both cases a text without separator. *)
Lemma split_last_item (sep : N) (s : str) :
  match split sep s with
  | [] => False
  | [w] => s = w ∧ contains [sep] w = false
  | _ :: ws =>
      ∃ dir, s = dir ++ last_item ws
             ∧ endswith dir [sep] = true
             ∧ contains [sep] (last_item ws) = false
  end.
Proof.
  induction s as [|c s IH]; [done|].
  simpl split. destruct (N.eqb_spec c sep) as [->|Hne].
  - destruct (split sep s) as [|w [|w2 ws]]; [done| |].
    + destruct IH as [-> Hw]. exists [sep].
      split; [done|]. split; [|done]. apply endswith_spec. by exists [].
    + destruct IH as (dir & -> & Hdir & Hbase). exists (sep :: dir).
      split; [done|]. split; [|done].
      apply endswith_spec in Hdir as [p ->]. apply endswith_spec.
      by exists (sep :: p).
  - destruct (split sep s) as [|w [|w2 ws]]; [done| |].
    + destruct IH as [-> Hw]. split; [done|].
      rewrite contains_sep_cons, Hw.
      by assert ((sep =? c)%N = false) as -> by (apply N.eqb_neq; congruence).
    + destruct IH as (dir & -> & Hdir & Hbase). exists (c :: dir).
      split; [done|]. split; [|done].
      apply endswith_spec in Hdir as [p ->]. apply endswith_spec.
      by exists (c :: p).
Qed.

Lemma base_of_cut (file_name : str) :
  ∃ dir, file_name = dir ++ base_of file_name
         ∧ (dir = [] ∨ endswith dir "/" = true).
Proof.
  unfold base_of. pose proof (split_last_item (ch "/") file_name) as H.
  destruct (split (ch "/") file_name) as [|w [|w2 ws]]; [done| |].
  - destruct H as [-> _]. exists []. split; [done|by left].
  - destruct H as (dir & -> & Hdir & _).
    change (last_item (w :: w2 :: ws)) with (last_item (w2 :: ws)).
    exists dir. split; [done|by right].
Qed.

Lemma base_of_no_slash (file_name : str) : contains "/" (base_of file_name) = false.
Proof.
  unfold base_of. pose proof (split_last_item (ch "/") file_name) as H.
  destruct (split (ch "/") file_name) as [|w [|w2 ws]]; [done| |].
  - by destruct H as [_ H].
  - by destruct H as (dir & _ & _ & H).
Qed.

(** ** Paths *)

Lemma all_chars_app (p : N → bool) (s t : str) :
  all_chars p (s ++ t) = all_chars p s && all_chars p t.
Proof. apply forallb_app. Qed.

Lemma all_chars_cons (p : N → bool) (c : N) (s : str) :
  all_chars p (c :: s) = p c && all_chars p s.
Proof. reflexivity. Qed.

Lemma all_chars_get (p : N → bool) (s : str) (i : nat) (c : N) :
  all_chars p s = true → s !! i = Some c → p c = true.
Proof.
  revert i. induction s as [|a s IH]; intros i; [done|].
  rewrite all_chars_cons. intros [Ha Hs]%andb_true_iff. destruct i as [|i].
  - by intros [= <-].
  - by apply IH.
Qed.

Lemma all_chars_fmap (p : N → bool) (f : N → N) (s : str) :
  (∀ c, p (f c) = true → p c = true) →
  all_chars p (f <$> s) = true → all_chars p s = true.
Proof.
  intros Hf. induction s as [|c s IH]; [done|].
  rewrite fmap_cons, !all_chars_cons. intros [Hc Hs]%andb_true_iff.
  apply andb_true_iff. split; [by apply Hf|by apply IH].
Qed.

Lemma last_sep_S (s : str) (i : nat) :
  last_sep s (S i) = if is_sep (s !! i) then Some i else last_sep s i.
Proof. reflexivity. Qed.

Lemma is_sep_get (s : str) (i : nat) :
  all_chars not_sep s = true → is_sep (s !! i) = false.
Proof.
  intros Hs. destruct (s !! i) as [c|] eqn:Hc; [|done].
  pose proof (all_chars_get _ _ _ _ Hs Hc) as Hn. unfold not_sep in Hn.
  by apply negb_true_iff in Hn.
Qed.

(** The backward scan finds nothing in a text without separator. *)
Lemma last_sep_none (s : str) (k : nat) :
  all_chars not_sep s = true → last_sep s k = None.
Proof.
  intros Hs. induction k as [|k IH]; [done|].
  rewrite last_sep_S. by rewrite is_sep_get.
Qed.

(** The backward scan stops at the separator that has no separator after
    it. *)
Lemma last_sep_found (d r : str) (c : N) :
  is_sep (Some c) = true → all_chars not_sep r = true →
  last_sep (d ++ c :: r) (length (d ++ c :: r)) = Some (length d).
Proof.
  intros Hc Hr. rewrite length_app. simpl length.
  assert (∀ k, last_sep (d ++ c :: r) (length d + S k) = Some (length d)) as Hscan;
    [|apply Hscan].
  induction k as [|k IH].
  - rewrite Nat.add_1_r, last_sep_S, (list_lookup_middle d r c) by done.
    by rewrite Hc.
  - rewrite Nat.add_succ_r, last_sep_S.
    rewrite lookup_app_r by lia.
    replace (length d + S k - length d)%nat with (S k) by lia. simpl.
    by rewrite is_sep_get.
Qed.

(** A text has no separator, or it is cut at its last one. *)
Lemma last_sep_cases (s : str) :
  all_chars not_sep s = true
  ∨ ∃ d c r, s = d ++ c :: r ∧ is_sep (Some c) = true
             ∧ all_chars not_sep r = true.
Proof.
  induction s as [|a s [Hs|(d & c & r & -> & Hc & Hr)]].
  - by left.
  - destruct (is_sep (Some a)) eqn:Ha.
    + right. by exists [], a, s.
    + left. rewrite all_chars_cons. unfold not_sep at 1. by rewrite Ha.
  - right. by exists (a :: d), c, r.
Qed.

Lemma all_chars_not_sep_false (d r : str) (c : N) :
  is_sep (Some c) = true → all_chars not_sep (d ++ c :: r) = false.
Proof.
  intros Hc. rewrite all_chars_app, all_chars_cons. unfold not_sep at 2. rewrite Hc.
  apply andb_false_r.
Qed.

Lemma ends_with_sep_snoc (d : str) (c : N) :
  is_sep (Some c) = true → ends_with_sep (d ++ [c]) = true.
Proof.
  unfold ends_with_sep. simpl. intros [Hc|Hc]%orb_true_iff; apply N.eqb_eq in Hc as ->.
  - apply orb_true_iff. left. apply endswith_spec. by exists d.
  - apply orb_true_iff. right. apply endswith_spec. by exists d.
Qed.

Lemma get_base_dir_cut (d r : str) (c : N) :
  is_sep (Some c) = true → all_chars not_sep r = true →
  get_base_dir (d ++ c :: r) = d ++ [c].
Proof.
  intros Hc Hr. unfold get_base_dir. rewrite last_sep_found by done.
  rewrite (cons_middle c d r), app_assoc.
  replace (length d + 1)%nat with (length (d ++ [c])) by (rewrite length_app; simpl; lia).
  apply take_app_length.
Qed.

Lemma get_base_name_eq (input_path : str) :
  get_base_name input_path =
    match last_sep (without_epub input_path) (length (without_epub input_path)) with
    | Some i => drop (i + 1) (without_epub input_path)
    | None => without_epub input_path
    end.
Proof. reflexivity. Qed.

Lemma get_base_name_cut (input_path d r : str) (c : N) :
  without_epub input_path = d ++ c :: r →
  is_sep (Some c) = true → all_chars not_sep r = true →
  get_base_name input_path = r.
Proof.
  intros Hs Hc Hr. rewrite get_base_name_eq, Hs, last_sep_found by done.
  rewrite (cons_middle c d r), app_assoc.
  replace (length d + 1)%nat with (length (d ++ [c])) by (rewrite length_app; simpl; lia).
  apply drop_app_length.
Qed.

(** ** Lower case *)

(** What the script asks of a lower-cased name is whether it ends with, or
    contains, a text of ASCII characters other than [i] and [k].  Such a
    character of the lower-cased name comes from the ASCII character at its
    place. *)
Lemma lower_at_ascii (s : str) (i : nat) (c : N) :
  is_ascii c = true → lower_at s i c = [ascii_lower c].
Proof. unfold lower_at. by intros ->. Qed.

Lemma lower_at_beyond_ascii (s : str) (i : nat) (c : N) :
  is_ascii c = false →
  lower_at s i c ≠ [] ∧ Forall (λ x, plain x = false) (lower_at s i c).
Proof.
  unfold lower_at. intros ->.
  destruct (c =? kelvin_sign)%N; [by split; [|repeat constructor]|].
  destruct (c =? capital_i_dot)%N; [by split; [|repeat constructor]|].
  destruct (unicode_lower_beyond_ascii s i) as [Hne Hall]. split; [done|].
  eapply Forall_impl; [exact Hall|]. intros x Hx. simpl in Hx. unfold plain, is_ascii.
  by assert ((x <? 128)%N = false) as -> by (apply N.ltb_ge; lia).
Qed.

Lemma ascii_lower_is_ascii (c : N) : is_ascii c = true → is_ascii (ascii_lower c) = true.
Proof.
  unfold is_ascii, ascii_lower. intros Hc%N.ltb_lt.
  destruct (_ && _) eqn:Hup; apply N.ltb_lt; [|done].
  apply andb_true_iff in Hup as [_ Hz%N.leb_le]. lia.
Qed.

Section lower_pieces.
(** The lower-case forms of the characters of a string, one piece for each
    character. *)
Variable piece : nat → N → list N.
Hypothesis piece_ascii : ∀ i c, is_ascii c = true → piece i c = [ascii_lower c].
Hypothesis piece_beyond_ascii : ∀ i c, is_ascii c = false →
  piece i c ≠ [] ∧ Forall (λ x, plain x = false) (piece i c).

Lemma endswith_snoc (a b : str) (x y : N) :
  endswith (a ++ [y]) (b ++ [x]) = true ↔ y = x ∧ endswith a b = true.
Proof.
  rewrite !endswith_spec. split.
  - intros [p Hp]. rewrite app_assoc in Hp. apply app_inj_tail in Hp as [-> ->].
    split; [done|by exists p].
  - intros [-> [p ->]]. exists p. by rewrite <-app_assoc.
Qed.

Lemma pieces_endswith (s suf : str) :
  all_chars plain suf = true →
  endswith (concat (imap piece s)) suf = true →
  ∃ p t, s = p ++ t ∧ ascii_lower <$> t = suf ∧ all_chars is_ascii t = true.
Proof.
  revert suf. induction s as [|c s IH] using rev_ind; intros suf Hsuf Hend.
  { apply endswith_spec in Hend as [p Hp]. simpl in Hp.
    symmetry in Hp. apply app_eq_nil in Hp as [_ ->]. by exists [], []. }
  destruct suf as [|x suf _] using rev_ind.
  { exists (s ++ [c]), []. by rewrite app_nil_r. }
  rewrite all_chars_app, all_chars_cons, andb_true_r in Hsuf.
  apply andb_true_iff in Hsuf as [Hsuf Hx].
  rewrite imap_app, concat_app in Hend. simpl in Hend. rewrite app_nil_r in Hend.
  destruct (is_ascii c) eqn:Hc.
  - rewrite piece_ascii in Hend by done.
    apply endswith_snoc in Hend as [Hcx Hend].
    destruct (IH suf Hsuf Hend) as (p & t & -> & Ht & Hascii).
    exists p, (t ++ [c]). rewrite <-app_assoc. split; [done|].
    rewrite fmap_app, Ht, all_chars_app, Hascii. simpl. by rewrite Hcx, Hc.
  - destruct (piece_beyond_ascii (length s + 0) c Hc) as [Hne Hall].
    destruct (piece (length s + 0) c) as [|y l _] using rev_ind; [done|].
    rewrite app_assoc in Hend. apply endswith_snoc in Hend as [-> _].
    apply (proj1 (Forall_app _ _ _)) in Hall as [_ Hy].
    apply (proj1 (Forall_singleton _ _)) in Hy. congruence.
Qed.

End lower_pieces.

Lemma pieces_ascii (piece : nat → N → list N) (t : str) :
  (∀ i c, is_ascii c = true → piece i c = [ascii_lower c]) →
  all_chars is_ascii t = true →
  concat (imap piece t) = ascii_lower <$> t.
Proof.
  revert piece. induction t as [|c t IH]; intros piece Hpiece; [done|].
  rewrite all_chars_cons. intros [Hc Ht]%andb_true_iff.
  simpl. rewrite Hpiece by done. simpl. f_equal.
  apply IH; [|done]. intros i x Hx. by apply Hpiece.
Qed.

(** The lower-cased name ends with [suf] exactly when the name ends with
    ASCII characters whose lower-case forms are [suf]. *)
Lemma lower_endswith (s suf : str) :
  all_chars plain suf = true →
  endswith (lower s) suf = true
  ↔ ∃ p t, s = p ++ t ∧ ascii_lower <$> t = suf ∧ all_chars is_ascii t = true.
Proof.
  intros Hsuf. split.
  - apply pieces_endswith; [apply lower_at_ascii|apply lower_at_beyond_ascii|done].
  - intros (p & t & Hs & <- & Ht). unfold lower.
    rewrite Hs at 2. rewrite imap_app, concat_app.
    rewrite (pieces_ascii _ t); [|intros; by apply lower_at_ascii|done].
    apply endswith_spec. by eexists.
Qed.

Lemma lower_ascii (t : str) : all_chars is_ascii t = true → lower t = ascii_lower <$> t.
Proof. intros Ht. apply pieces_ascii; [intros; by apply lower_at_ascii|done]. Qed.

Lemma ascii_lower_keeps_sep (c : N) : not_sep (ascii_lower c) = true → not_sep c = true.
Proof.
  unfold not_sep. destruct (is_sep (Some c)) eqn:Hc; [|done].
  simpl in Hc. apply orb_true_iff in Hc as [Hc|Hc]; apply N.eqb_eq in Hc as ->;
    by vm_compute.
Qed.

(** The cut of lines 40-41: what is removed is the last five characters,
    [.epub] in some case, with no separator among them. *)
Lemma without_epub_cut (input_path : str) :
  ∃ ext, input_path = without_epub input_path ++ ext
         ∧ (ext = [] ∨ lower ext = ".epub")
         ∧ all_chars not_sep ext = true.
Proof.
  unfold without_epub. destruct (endswith (lower input_path) ".epub") eqn:Hend.
  - apply lower_endswith in Hend as (p & t & -> & Ht & Hascii); [|done].
    assert (length t = 5%nat) as Hlen.
    { apply (f_equal length) in Ht. by rewrite length_fmap in Ht. }
    exists t. rewrite length_app, Hlen, Nat.add_sub, take_app_length.
    split; [done|]. split.
    + right. by rewrite lower_ascii.
    + apply (all_chars_fmap _ ascii_lower); [apply ascii_lower_keeps_sep|].
      by rewrite Ht.
  - exists []. by rewrite app_nil_r; auto.
Qed.

(** X5. The base name and the base directory of a path.  The base name has
    no separator.  Of a path without separator the directory is [./] and the
    base name is the path without its [.epub]; otherwise the path without
    its [.epub] is the directory, which ends with a separator, followed by
    the base name.  What the base name leaves out at the end is nothing or
    [.epub] in some case. *)
Theorem path_decomposition (input_path : str) :
  all_chars not_sep (get_base_name input_path) = true
  ∧ (all_chars not_sep input_path = true →
       get_base_dir input_path = "./"
       ∧ get_base_name input_path = without_epub input_path)
  ∧ (all_chars not_sep input_path = false →
       get_base_dir input_path ++ get_base_name input_path = without_epub input_path
       ∧ ends_with_sep (get_base_dir input_path) = true)
  ∧ ∃ ext, input_path = without_epub input_path ++ ext
           ∧ (ext = [] ∨ lower ext = ".epub").
Proof.
  destruct (without_epub_cut input_path) as (ext & Hpath & Hext & Hsep).
  destruct (last_sep_cases (without_epub input_path))
    as [Hs|(d & c & r & Hs & Hc & Hr)].
  - assert (get_base_name input_path = without_epub input_path) as Hname.
    { rewrite get_base_name_eq. by rewrite last_sep_none. }
    assert (all_chars not_sep input_path = true) as Hall.
    { rewrite Hpath, all_chars_app. by rewrite Hs, Hsep. }
    split; [by rewrite Hname|]. split; [|split; [by rewrite Hall|by exists ext]].
    intros _. split; [|done]. unfold get_base_dir. by rewrite last_sep_none.
  - pose proof (get_base_name_cut input_path d r c Hs Hc Hr) as Hname.
    assert (input_path = d ++ c :: (r ++ ext)) as Hfull.
    { rewrite Hpath at 1. rewrite Hs. by rewrite <-app_assoc. }
    assert (all_chars not_sep (r ++ ext) = true) as Hrest.
    { rewrite all_chars_app. by rewrite Hr, Hsep. }
    split; [by rewrite Hname|]. split; [|split; [|by exists ext]].
    + intros Hall. rewrite Hfull in Hall.
      by rewrite all_chars_not_sep_false in Hall.
    + intros _. rewrite Hname. rewrite Hfull at 1 3.
      rewrite get_base_dir_cut by done. split.
      * rewrite Hs. by rewrite <-app_assoc.
      * by apply ends_with_sep_snoc.
Qed.

Lemma get_base_name_no_sep (input_path : str) :
  all_chars not_sep (get_base_name input_path) = true.
Proof.
  destruct (last_sep_cases (without_epub input_path))
    as [Hs|(d & c & r & Hs & Hc & Hr)].
  - rewrite get_base_name_eq. by rewrite last_sep_none.
  - by rewrite (get_base_name_cut input_path d r c Hs Hc Hr).
Qed.

Lemma truthy_str_true (t : str) : t ≠ [] → truthy_str t = true.
Proof. by destruct t. Qed.

(** X6. The output directory always ends with a separator, so a file name
    appended to it lies inside it: a directory given on the command line
    is kept when it ends with [/] or [\] and gets a [/] otherwise; with no
    directory (or an empty one) it is the directory of the source path. *)
Theorem output_dir_ends_with_sep (cfg : config.t) :
  ends_with_sep (output_dir cfg) = true
  ∧ (∀ d, config.outdir cfg = Some d → d ≠ [] →
       output_dir cfg = if ends_with_sep d then d else d ++ "/")
  ∧ (config.outdir cfg = None ∨ config.outdir cfg = Some [] →
       output_dir cfg = get_base_dir (config.epub cfg)).
Proof.
  assert (ends_with_sep (get_base_dir (config.epub cfg)) = true) as Hbase.
  { destruct (all_chars not_sep (config.epub cfg)) eqn:Hall.
    - destruct (last_sep_cases (config.epub cfg)) as [Hs|(d & c & r & Hs & Hc & Hr)].
      + unfold get_base_dir. by rewrite last_sep_none.
      + by rewrite Hs, all_chars_not_sep_false in Hall.
    - destruct (last_sep_cases (config.epub cfg)) as [Hs|(d & c & r & Hs & Hc & Hr)];
        [congruence|].
      rewrite Hs, get_base_dir_cut by done. by apply ends_with_sep_snoc. }
  unfold output_dir. split; [|split].
  - destruct (config.outdir cfg) as [d|]; [|done].
    destruct (truthy_str d); [|done]. fold (ends_with_sep d).
    destruct (ends_with_sep d) eqn:Hd; [done|]. simpl.
    unfold ends_with_sep. apply orb_true_iff. left. apply endswith_spec. by exists d.
  - intros d -> Hd. rewrite truthy_str_true by done. fold (ends_with_sep d).
    by destruct (ends_with_sep d).
  - by intros [-> | ->].
Qed.

(** ** Base names and extensions *)

Lemma app_eq_app_s (a b c d : str) :
  a ++ b = c ++ d →
  (∃ m, c = a ++ m ∧ b = m ++ d) ∨ (∃ m, a = c ++ m ∧ d = m ++ b).
Proof.
  revert c. induction a as [|x a IH]; intros c H.
  - left. by exists c.
  - destruct c as [|y c].
    + right. by exists (x :: a).
    + injection H as -> H.
      destruct (IH c H) as [(m & -> & ->)|(m & -> & ->)]; [left|right]; by exists m.
Qed.

(** A part at the end of a text that ends with a slash ends with a slash too,
    unless it is empty. *)
Lemma endswith_slash_tail (p m : str) :
  endswith (p ++ m) "/" = true → m ≠ [] → ∃ n, m = n ++ "/".
Proof.
  intros [r Hr]%endswith_spec Hm.
  destruct (app_eq_app_s _ _ _ _ Hr) as [(n & -> & Hn)|(n & -> & Hn)]; [by exists n|].
  change (lit "/") with [ch "/"] in *.
  destruct n as [|x n].
  - exists []. by simpl in Hn.
  - injection Hn as _ Hn. symmetry in Hn. by apply app_eq_nil in Hn as [_ ->].
Qed.

(** An ending without separator of a path is an ending of its base name. *)
Lemma suffix_of_base (d b suf : str) :
  d = [] ∨ endswith d "/" = true →
  all_chars not_sep suf = true →
  endswith (d ++ b) suf = true → endswith b suf = true.
Proof.
  intros Hd Hsuf [p Hp]%endswith_spec. apply endswith_spec.
  destruct (app_eq_app_s _ _ _ _ Hp) as [(m & -> & Hm)|(m & -> & Hm)]; [by exists m|].
  destruct (decide (m = [])) as [->|Hne].
  { exists []. by simpl in Hm. }
  destruct Hd as [Hd|Hd].
  { by apply app_eq_nil in Hd as [_ ->]. }
  destruct (endswith_slash_tail p m Hd Hne) as [n ->].
  rewrite Hm in Hsuf. change (lit "/") with [ch "/"] in Hsuf.
  rewrite <-app_assoc in Hsuf. simpl in Hsuf.
  by rewrite all_chars_not_sep_false in Hsuf.
Qed.

(** The base name keeps the extension of the member, as spelled and in lower
    case. *)
Lemma base_of_endswith (file_name suf : str) :
  all_chars not_sep suf = true →
  endswith file_name suf = true → endswith (base_of file_name) suf = true.
Proof.
  intros Hsuf. destruct (base_of_cut file_name) as (dir & Hcut & Hdir).
  rewrite Hcut at 1. by apply suffix_of_base.
Qed.

Lemma base_of_lower_endswith (file_name suf : str) :
  all_chars not_sep suf = true → all_chars plain suf = true →
  endswith (lower file_name) suf = true →
  endswith (lower (base_of file_name)) suf = true.
Proof.
  intros Hsep Hplain (p & t & Hname & Ht & Hascii)%lower_endswith; [|done].
  apply lower_endswith; [done|].
  assert (all_chars not_sep t = true) as Htsep.
  { apply (all_chars_fmap _ ascii_lower); [apply ascii_lower_keeps_sep|].
    by rewrite Ht. }
  assert (endswith (base_of file_name) t = true) as [p' Hbase]%endswith_spec.
  { apply base_of_endswith; [done|]. apply endswith_spec. by exists p. }
  by exists p', t.
Qed.

Lemma base_of_chapter_name (file_name : str) :
  is_chapter_name file_name = true → is_chapter_name (base_of file_name) = true.
Proof.
  unfold is_chapter_name, endswith_any. simpl. rewrite !orb_false_r, !orb_true_iff.
  intros [H|H]; [left|right]; by apply base_of_endswith.
Qed.

Lemma base_of_image_name (file_name : str) :
  is_image_name file_name = true → is_image_name (base_of file_name) = true.
Proof.
  unfold is_image_name, endswith_any. simpl. rewrite !orb_false_r, !orb_true_iff.
  intros [H|[H|H]]; [left|right; left|right; right]; by apply base_of_lower_endswith.
Qed.

(** No name is both a chapter's and an image's. *)
Lemma chapter_name_not_image (name : str) :
  is_chapter_name name = true → is_image_name name = false.
Proof.
  unfold is_chapter_name, endswith_any. simpl. rewrite orb_false_r.
  intros Hch.
  assert (endswith (lower name) "html" = true) as Hhtml.
  { apply lower_endswith; [done|].
    apply orb_true_iff in Hch as [[p ->]%endswith_spec|[p ->]%endswith_spec].
    - exists (p ++ "."), (lit "html"). split; [by rewrite <-app_assoc|done].
    - exists (p ++ ".x"), (lit "html"). split; [by rewrite <-app_assoc|done]. }
  unfold is_image_name, endswith_any. simpl. rewrite orb_false_r.
  destruct (endswith (lower name) ".jpg") eqn:E1.
  { by pose proof (endswith_literals _ _ _ E1 Hhtml eq_refl). }
  destruct (endswith (lower name) ".jpeg") eqn:E2.
  { change (lit ".jpeg") with (ch "." :: lit "jpeg") in E2.
    apply endswith_tail in E2.
    by pose proof (endswith_literals _ _ _ E2 Hhtml eq_refl). }
  destruct (endswith (lower name) ".png") eqn:E3; [|done].
  by pose proof (endswith_literals _ _ _ E3 Hhtml eq_refl).
Qed.

Lemma elem_of_html_files (files : list str) (f : str) :
  f ∈ html_files files ↔ is_chapter_name f = true ∧ f ∈ files.
Proof.
  unfold html_files. rewrite merge_sort_Permutation, list_elem_of_filter. done.
Qed.

Lemma find_cover_in_name (z : list zip_entry) (files : list str) (n : str) :
  cover_image_name (find_cover_in z files) = Some n →
  ∃ e, e ∈ files ∧ is_cover_name e = true ∧ n = base_of e
       ∧ cover_image (find_cover_in z files) = Some (zread z e)
       ∧ cover_media_type (find_cover_in z files) = media_type_of n.
Proof.
  induction files as [|f files IH]; [done|]. simpl.
  destruct (is_cover_name f) eqn:Hf.
  - simpl. intros [= <-]. exists f. split; [apply list_elem_of_here|done].
  - intros H. destruct (IH H) as (e & He & Hrest). exists e.
    split; [by apply list_elem_of_further|done].
Qed.

Lemma find_cover_image_name (z : list zip_entry) (n : str) :
  cover_image_name (find_cover z) = Some n → is_image_name n = true.
Proof.
  intros H. destruct (find_cover_in_name z _ n H) as (e & _ & He & -> & _).
  apply base_of_image_name. unfold is_cover_name in He.
  by apply andb_true_iff in He as [_ He].
Qed.

(** X3. The chapter members are the members of the listing whose name ends
    with [.html] or [.xhtml], each as often as it is listed, in ascending
    order of their names. *)
Theorem html_files_sorted (files : list str) :
  Sorted str_le (html_files files)
  ∧ html_files files
    ≡ₚ filter (λ f, endswith_any f [lit ".html"; lit ".xhtml"] = true) files
  ∧ length (html_files files)
    = length (filter (λ f, endswith_any f [lit ".html"; lit ".xhtml"] = true) files)
  ∧ ∀ f, f ∈ html_files files
         ↔ (endswith f ".html" = true ∨ endswith f ".xhtml" = true) ∧ f ∈ files.
Proof.
  unfold html_files.
  pose proof (merge_sort_Permutation str_le
                (filter (λ f, endswith_any f [lit ".html"; lit ".xhtml"] = true) files))
    as Hperm.
  split; [apply (@Sorted_merge_sort _ str_le _ str_le_total)|].
  split; [done|]. split; [by rewrite Hperm|].
  intros f. rewrite Hperm, list_elem_of_filter. unfold endswith_any. simpl.
  rewrite orb_false_r, orb_true_iff. done.
Qed.

(** X4. The base name of a member: the name is a directory part, empty or
    ending with a slash, followed by the base name, and the base name has no
    slash.  The chapters' file names and the cover's name are base names. *)
Theorem base_of_strips_directories (file_name : str) :
  (∃ dir, file_name = dir ++ base_of file_name
          ∧ (dir = [] ∨ endswith dir "/" = true))
  ∧ contains "/" (base_of file_name) = false.
Proof. split; [apply base_of_cut|apply base_of_no_slash]. Qed.

(** ** The extracted chapters *)

(** X7. Every extracted chapter comes from a member of the container whose
    name ends with [.html] or [.xhtml]: its file name is the base name of
    that member, which still ends with the extension and has no slash, its
    content is what the parser returns for the member's bytes, and its title
    is derived from its file name.  There are as many chapters as such
    members. *)
Theorem extracted_chapter_invariant (z : list zip_entry) :
  length (extract_chapters z)
    = length (filter (λ f, is_chapter_name f = true) (namelist z))
  ∧ ∀ chap, chap ∈ extract_chapters z →
      (∃ name, name ∈ namelist z ∧ is_chapter_name name = true
               ∧ file_name chap = base_of name
               ∧ content chap = decode_contents (zread z name))
      ∧ title chap = chapter_title (file_name chap)
      ∧ is_chapter_name (file_name chap) = true
      ∧ contains "/" (file_name chap) = false.
Proof.
  unfold extract_chapters. split.
  - rewrite length_fmap. unfold html_files. by rewrite merge_sort_Permutation.
  - intros chap (name & -> & [Hname Hin]%elem_of_html_files)%list_elem_of_fmap.
    unfold extract_chapter. simpl. split; [by exists name|]. split; [done|].
    split; [by apply base_of_chapter_name|apply base_of_no_slash].
Qed.

Lemma extracted_chapter_name (z : list zip_entry) (chap : chapter) :
  chap ∈ extract_chapters z → is_chapter_name (file_name chap) = true.
Proof.
  unfold extract_chapters.
  intros (name & -> & [Hname _]%elem_of_html_files)%list_elem_of_fmap.
  by apply base_of_chapter_name.
Qed.

Lemma cover_member_names (c : cover) :
  m_name <$> cover_members c = []
  ∨ ∃ n, cover_image_name c = Some n ∧ m_name <$> cover_members c = [n].
Proof.
  unfold cover_members.
  destruct (cover_image c) as [b|], (cover_image_name c) as [n|]; try by left.
  destruct (truthy_bytes (Some b) && truthy_str n); [right; by exists n|by left].
Qed.

Lemma NoDup_app_by (P : str → bool) (l k : list str) :
  NoDup l → NoDup k →
  (∀ x, x ∈ l → P x = true) → (∀ x, x ∈ k → P x = false) →
  NoDup (l ++ k).
Proof.
  intros Hl Hk HPl HPk. apply NoDup_app. split; [done|]. split; [|done].
  intros x Hxl Hxk. specialize (HPl x Hxl). specialize (HPk x Hxk). congruence.
Qed.

(** X8. For a batch of chapters extracted from the source, the member names
    of the written container are pairwise distinct exactly when the file
    names of the chapters are: the cover's name ends with an image extension,
    the chapters' with [.html] or [.xhtml], and none of them is the name of
    a fixed member, so only two chapters of one base name can collide. *)
Theorem member_names_distinct (cfg : config.t) (base_name : str) (z : list zip_entry)
    (i : nat) (batch : list chapter) :
  (∀ chap, chap ∈ batch → chap ∈ extract_chapters z) →
  NoDup (m_name <$> write_epub cfg base_name (find_cover z) i batch)
  ↔ NoDup (file_name <$> batch).
Proof.
  intros Hbatch. rewrite write_epub_members, !fmap_app, <-list_fmap_compose.
  change ((m_name ∘ chapter_member) <$> batch) with (file_name <$> batch).
  cbn [fmap list_fmap m_name].
  set (C := m_name <$> cover_members (find_cover z)).
  set (N := file_name <$> batch) in *.
  assert ([lit "mimetype"; lit "META-INF/container.xml"] ++ C ++ [lit "styles.css"]
            ++ N ++ [lit "content.opf"; lit "toc.ncx"]
          ≡ₚ N ++ C ++ [lit "mimetype"; lit "META-INF/container.xml"; lit "styles.css";
                        lit "content.opf"; lit "toc.ncx"]) as -> by solve_Permutation.
  split; [by intros [? _]%NoDup_app|intros Hnodup].
  assert (∀ x, x ∈ N → is_chapter_name x = true) as HN.
  { intros x (chap & -> & Hch)%list_elem_of_fmap.
    by apply (extracted_chapter_name z), Hbatch. }
  assert (NoDup C ∧ ∀ x, x ∈ C → is_image_name x = true) as [HCn HC].
  { destruct (cover_member_names (find_cover z)) as [HC|(n & Hn & HC)];
      fold C in HC; rewrite HC.
    - split; [constructor|]. by intros x ?%elem_of_nil.
    - split; [apply NoDup_singleton|].
      intros x ->%list_elem_of_singleton. by apply (find_cover_image_name z). }
  apply (NoDup_app_by is_chapter_name); [done| |done|].
  - apply (NoDup_app_by is_image_name); [done| |done|].
    + by apply (bool_decide_unpack _).
    + intros x Hx. repeat (apply elem_of_cons in Hx as [->|Hx]; [by vm_compute|]).
      by apply elem_of_nil in Hx.
  - intros x [Hx|Hx]%elem_of_app.
    + destruct (is_chapter_name x) eqn:Hchap; [|done].
      apply chapter_name_not_image in Hchap. rewrite HC in Hchap; done.
    + repeat (apply elem_of_cons in Hx as [->|Hx]; [by vm_compute|]).
      by apply elem_of_nil in Hx.
Qed.

(** ** The number and the positions of the parts *)

Lemma range_len_count (len : nat) (size : Z) :
  1 ≤ size →
  Z.of_nat (range_len 0 (Z.of_nat len) size) = (Z.of_nat len + size - 1) / size.
Proof.
  intros Hsize. unfold range_len.
  destruct (Z.ltb_spec 0 size) as [_|?]; [|lia].
  replace (Z.of_nat len - 0 - 1) with (Z.of_nat len - 1) by lia.
  destruct (Z.ltb_spec 0 (Z.of_nat len)) as [Hlen|Hlen].
  - assert (0 ≤ (Z.of_nat len - 1) / size) by (apply Z.div_pos; lia).
    rewrite Z2Nat.id by lia.
    replace (Z.of_nat len + size - 1) with (Z.of_nat len - 1 + 1 * size) by lia.
    rewrite Z.div_add by lia. done.
  - replace (Z.of_nat len) with 0 by lia. simpl.
    symmetry. apply Z.div_small. lia.
Qed.

(** X9. A fixed-size split of [L] chapters with a batch size of at least 1
    makes [ceil(L / size)] batches: none for an empty book, and the whole
    book as one batch when it has at most [size] chapters. *)
Theorem chunks_count {A} (lst : list A) (size : Z) :
  1 ≤ size →
  ∃ batches,
    chunks lst size = Ok batches
    ∧ Z.of_nat (length batches) = (Z.of_nat (length lst) + size - 1) / size
    ∧ (lst = [] → batches = [])
    ∧ (lst ≠ [] → Z.of_nat (length lst) ≤ size → batches = [lst]).
Proof.
  intros Hsize. eexists. split; [by apply chunks_windows|].
  pose proof (range_len_count (length lst) size Hsize) as Hcount.
  split; [by rewrite length_fmap, length_seq|]. split.
  - intros ->. simpl. unfold range_len. by destruct (0 <? size).
  - intros Hne Hle.
    assert (0 < Z.of_nat (length lst)) by (destruct lst; [done|simpl; lia]).
    replace (Z.of_nat (length lst) + size - 1)
      with (Z.of_nat (length lst) - 1 + 1 * size) in Hcount by lia.
    rewrite Z.div_add, Z.div_small in Hcount by lia.
    replace (range_len 0 (Z.of_nat (length lst)) size) with 1%nat by lia.
    change (seq 0 1) with [0%nat]. cbn [fmap list_fmap]. unfold window.
    rewrite Nat.mul_0_l, drop_0, take_ge by lia. done.
Qed.

(** X10. The positions a part of a fixed-size split shows in its name and
    title are those of its chapters in the book: part [j + 1] starts at
    position [j*size + 1], holds the chapters from its start to its end
    position, the next part starts right after its end, and the last part
    ends at the last chapter. *)
Theorem fixed_positions (cfg : config.t) (chapters : list chapter)
    (batches : list (list chapter)) (j : nat) (batch : list chapter) :
  config.singlerange cfg = None →
  1 ≤ config.splitsize cfg →
  chapter_batches cfg chapters = Ok batches →
  batches !! j = Some batch →
  start_chapter cfg (S j) = Z.of_nat j * config.splitsize cfg + 1
  ∧ 1 ≤ start_chapter cfg (S j) ≤ end_chapter cfg (S j) batch
  ∧ end_chapter cfg (S j) batch ≤ Z.of_nat (length chapters)
  ∧ (∀ (k : nat) chap, batch !! k = Some chap →
       chapters !! Z.to_nat (start_chapter cfg (S j) - 1 + Z.of_nat k) = Some chap)
  ∧ ((S j < length batches)%nat →
       start_chapter cfg (S (S j)) = end_chapter cfg (S j) batch + 1)
  ∧ (S j = length batches → end_chapter cfg (S j) batch = Z.of_nat (length chapters)).
Proof.
  intros Hr Hsize Hb Hj. unfold chapter_batches in Hb. rewrite Hr in Hb.
  rewrite chunks_windows in Hb by done. injection Hb as <-.
  apply list_lookup_fmap_Some in Hj as (j' & -> & Hj').
  apply lookup_seq in Hj' as [-> Hj]. simpl in Hj.
  destruct (range_len_cover (length chapters) _ Hsize) as [Hcover Hlast].
  pose proof (Hlast j Hj) as Hstart.
  unfold start_chapter, end_chapter. rewrite Hr, length_window.
  rewrite length_fmap, length_seq.
  set (size := config.splitsize cfg) in *.
  set (n := Z.to_nat size) in *.
  assert (Z.of_nat n = size) as Hn by (unfold n; lia).
  assert (Z.of_nat (j * n) = Z.of_nat j * size) as Hjn by (rewrite Nat2Z.inj_mul; lia).
  split; [lia|]. split; [lia|]. split; [lia|]. split; [|split].
  - intros k chap Hk. apply window_lookup in Hk.
    replace (Z.to_nat ((Z.of_nat (S j) - 1) * size + 1 - 1 + Z.of_nat k))
      with (j * n + k)%nat; [done|]. lia.
  - intros HS. pose proof (Hlast (S j) HS) as Hnext.
    assert (Z.of_nat (S j * n) = Z.of_nat (S j) * size) as HSn
      by (rewrite Nat2Z.inj_mul; lia).
    lia.
  - intros HS. rewrite <-HS in Hcover.
    assert (Z.of_nat (S j * n) = Z.of_nat (S j) * size) as HSn
      by (rewrite Nat2Z.inj_mul; lia).
    lia.
Qed.

(** ** Names of the parts *)

Lemma lit_cons (c : ascii) (s : string) : lit (String c s) = ch c :: lit s.
Proof. reflexivity. Qed.

Lemma string_of_uint_chars (d : Decimal.uint) :
  all_chars int_char (lit (NilEmpty.string_of_uint d)) = true.
Proof.
  induction d; cbn [NilEmpty.string_of_uint]; rewrite ?lit_cons, ?all_chars_cons, ?IHd;
    done.
Qed.

Lemma str_of_int_chars (n : Z) : all_chars int_char (str_of_int n) = true.
Proof.
  unfold str_of_int. destruct (Z.to_int n) as [d|d]; cbn [NilEmpty.string_of_int].
  - apply string_of_uint_chars.
  - rewrite lit_cons, all_chars_cons. by rewrite string_of_uint_chars.
Qed.

Lemma all_chars_impl (p p' : N → bool) (s : str) :
  (∀ c, p c = true → p' c = true) → all_chars p s = true → all_chars p' s = true.
Proof.
  intros Hp. induction s as [|c s IH]; [done|]. rewrite !all_chars_cons.
  intros [Hc Hs]%andb_true_iff. by rewrite (Hp c Hc), IH.
Qed.

Lemma int_char_not_sep (c : N) : int_char c = true → not_sep c = true.
Proof.
  unfold int_char, not_sep, is_ascii_digit. simpl.
  destruct (N.eqb_spec c (ch "/")) as [->|]; [done|].
  destruct (N.eqb_spec c (ch "\")) as [->|]; [done|]. done.
Qed.

(** Two texts of [int] characters followed by an underscore: what comes
    before the underscore and what comes after it are the same. *)
Lemma app_underscore_inj (a a' r r' : str) :
  all_chars int_char a = true → all_chars int_char a' = true →
  a ++ ch "_" :: r = a' ++ ch "_" :: r' → a = a' ∧ r = r'.
Proof.
  revert a'. induction a as [|x a IH]; intros [|x' a'] Ha Ha' H.
  - by injection H as ->.
  - injection H as <- _. by vm_compute in Ha'.
  - injection H as -> _. by vm_compute in Ha.
  - injection H as -> H. rewrite all_chars_cons in Ha, Ha'.
    apply andb_true_iff in Ha as [_ Ha]. apply andb_true_iff in Ha' as [_ Ha'].
    destruct (IH a' Ha Ha' H) as [-> ->]. done.
Qed.

Lemma output_name_untitled (cfg : config.t) (base_name dir : str) (i : nat)
    (batch : list chapter) :
  config.title cfg = None ∨ config.title cfg = Some [] →
  output_name cfg base_name dir i batch
  = dir ++ base_name ++ "_" ++ str_of_int (start_chapter cfg i) ++ "_"
    ++ str_of_int (end_chapter cfg i batch) ++ ".epub".
Proof. intros Ht. unfold output_name. by destruct Ht as [-> | ->]. Qed.

Lemma output_name_titled (cfg : config.t) (base_name dir : str) (i : nat)
    (batch : list chapter) (t : str) :
  config.title cfg = Some t → t ≠ [] →
  output_name cfg base_name dir i batch = dir ++ re_sub_spaces (strip t) ++ ".epub".
Proof. intros Ht Hne. unfold output_name. by rewrite Ht, truthy_str_true. Qed.

Lemma part_title_untitled (cfg : config.t) (base_name : str) (i : nat)
    (batch : list chapter) :
  config.title cfg = None ∨ config.title cfg = Some [] →
  part_title cfg base_name i batch
  = base_name ++ " " ++ str_of_int (start_chapter cfg i) ++ "-"
    ++ str_of_int (end_chapter cfg i batch).
Proof. intros Ht. unfold part_title. by destruct Ht as [-> | ->]. Qed.

Lemma part_title_titled (cfg : config.t) (base_name : str) (i : nat)
    (batch : list chapter) (t : str) :
  config.title cfg = Some t → t ≠ [] → part_title cfg base_name i batch = t.
Proof. intros Ht Hne. unfold part_title. by rewrite Ht, truthy_str_true. Qed.

(** Without a title the path of a part tells its two positions. *)
Lemma output_name_positions (cfg : config.t) (base_name dir : str) (i i' : nat)
    (batch batch' : list chapter) :
  config.title cfg = None ∨ config.title cfg = Some [] →
  output_name cfg base_name dir i batch = output_name cfg base_name dir i' batch' →
  start_chapter cfg i = start_chapter cfg i'
  ∧ end_chapter cfg i batch = end_chapter cfg i' batch'.
Proof.
  intros Ht H. rewrite !output_name_untitled in H by done.
  do 2 apply app_inv_head in H. change (lit "_") with [ch "_"] in H. simpl in H.
  injection H as H.
  apply app_underscore_inj in H as [Hs He]; [|apply str_of_int_chars..].
  apply app_inv_tail in He.
  split; by apply str_of_int_inj.
Qed.

(** Without a title the file of a part lies directly in the output
    directory, where it can be opened, when the base name has no
    separator. *)
Lemma untitled_can_open (cfg : config.t) (base_name dir : str) (i : nat)
    (batch : list chapter) :
  config.title cfg = None ∨ config.title cfg = Some [] →
  all_chars not_sep base_name = true →
  can_open dir (output_name cfg base_name dir i batch) = true.
Proof.
  intros Ht Hbase. unfold can_open. rewrite output_name_untitled by done.
  rewrite drop_app_length. apply orb_true_iff. left.
  fold (all_chars not_sep). rewrite !all_chars_app, Hbase.
  rewrite !(all_chars_impl _ _ _ int_char_not_sep (str_of_int_chars _)).
  done.
Qed.

(** ** The write loop *)

(** The loop touches the file system at the output names of its parts
    only. *)
Lemma write_parts_frame (cfg : config.t) (base_name dir : str) (c : cover)
    (parts : list (nat * list chapter)) (fs : file_system) (path : str) :
  (∀ j i batch, parts !! j = Some (i, batch) →
     output_name cfg base_name dir i batch ≠ path) →
  files (write_parts cfg base_name dir c fs parts) !! path = fs !! path.
Proof.
  revert fs. induction parts as [|[i0 b0] parts IH]; intros fs Hne; [done|].
  simpl. destruct (can_open _ _); [|done].
  rewrite IH.
  - apply lookup_insert_ne. by apply (Hne 0%nat).
  - intros j i batch Hj. by apply (Hne (S j)).
Qed.


(** Parts with paths of their own that can all be opened: each is on the
    file system when the loop ends. *)
Lemma write_parts_lookup (cfg : config.t) (base_name dir : str) (c : cover)
    (parts : list (nat * list chapter)) (fs : file_system) (j i : nat)
    (batch : list chapter) :
  parts !! j = Some (i, batch) →
  (∀ j' i' batch', parts !! j' = Some (i', batch') →
     can_open dir (output_name cfg base_name dir i' batch') = true) →
  (∀ j' i' batch', parts !! j' = Some (i', batch') →
     output_name cfg base_name dir i' batch' = output_name cfg base_name dir i batch →
     j' = j) →
  files (write_parts cfg base_name dir c fs parts)
    !! output_name cfg base_name dir i batch
  = Some (write_epub cfg base_name c i batch).
Proof.
  revert fs j. induction parts as [|[i0 b0] parts IH]; intros fs j Hj Hopen Hinj; [done|].
  simpl. rewrite (Hopen 0%nat i0 b0 eq_refl). destruct j as [|j].
  - injection Hj as -> ->. rewrite write_parts_frame; [apply lookup_insert_eq|].
    intros j' i' batch' Hj' Hsame. by specialize (Hinj (S j') i' batch' Hj' Hsame).
  - apply (IH _ j); [done| |].
    + intros j' i' batch' Hj'. by apply (Hopen (S j')).
    + intros j' i' batch' Hj' Hsame. by specialize (Hinj (S j') i' batch' Hj' Hsame) as [= ->].
Qed.

(** Parts written to one path: when it can be opened the last one stays, and
    otherwise the first write ends the loop. *)
Lemma write_parts_one_path (cfg : config.t) (base_name dir : str) (c : cover)
    (path : str) (parts : list (nat * list chapter)) (fs : file_system) :
  (∀ i batch, output_name cfg base_name dir i batch = path) →
  write_parts cfg base_name dir c fs parts =
    match last parts with
    | Some (i, batch) =>
        if can_open dir path
        then Outcome (<[path := write_epub cfg base_name c i batch]> fs) None
        else Outcome fs (Some (OSError path))
    | None => Outcome fs None
    end.
Proof.
  intros Hpath. revert fs. induction parts as [|[i batch] parts IH]; intros fs; [done|].
  simpl write_parts. rewrite Hpath.
  destruct parts as [|p parts].
  { simpl. by destruct (can_open dir path). }
  change (last ((i, batch) :: p :: parts)) with (last (p :: parts)).
  destruct (last (p :: parts)) as [[i' batch']|] eqn:Hlast;
    [|by apply last_None in Hlast].
  destruct (can_open dir path); [|done].
  rewrite IH. by rewrite insert_insert_eq.
Qed.

(** C7, as the script has it.  With an explicit title that is not empty,
    every part is written to the same path: the output directory, the title
    trimmed of leading and trailing white space with each remaining run of
    white space turned into one underscore, and [.epub].  When that path can
    be opened, the run leaves there the container of its last part only;
    when it cannot (the title has a separator and leads into a directory
    that is not there), the first write ends the run with an error and no
    file is written.  Every part shows the title as given.  With no title
    (or an empty one) and a batch size of at least 1, part [j + 1] of a
    fixed-size split is found at
    [{output_dir}{base_name}_{start}_{end}.epub] and shows the title
    [{base_name} {start}-{end}], where [start = j*size + 1] and
    [end = start + len(batch) - 1]; with an explicit range the one part has
    the requested bounds in its path and its title. *)
Theorem output_naming (cfg : config.t) (z : list zip_entry) (fs : file_system) :
  (∀ t, config.title cfg = Some t → t ≠ [] →
     (∀ batches last_batch,
        chapter_batches cfg (extract_chapters z) = Ok batches →
        last batches = Some last_batch →
        run cfg z fs =
          if can_open (output_dir cfg)
               (output_dir cfg ++ re_sub_spaces (strip t) ++ ".epub")
          then Outcome
                 (<[output_dir cfg ++ re_sub_spaces (strip t) ++ ".epub" :=
                      write_epub cfg (get_base_name (config.epub cfg)) (find_cover z)
                                 (length batches) last_batch]> fs)
                 None
          else Outcome fs
                 (Some (OSError (output_dir cfg ++ re_sub_spaces (strip t) ++ ".epub"))))
     ∧ (∀ base_name c i batch, shows_title t (write_epub cfg base_name c i batch)))
  ∧ (config.title cfg = None ∨ config.title cfg = Some [] →
     config.singlerange cfg = None → 1 ≤ config.splitsize cfg →
     ∀ batches j batch,
       chapter_batches cfg (extract_chapters z) = Ok batches →
       batches !! j = Some batch →
       let start := Z.of_nat j * config.splitsize cfg + 1 in
       let end_ := start + Z.of_nat (length batch) - 1 in
       files (run cfg z fs)
         !! (output_dir cfg ++ get_base_name (config.epub cfg) ++ "_" ++ str_of_int start
             ++ "_" ++ str_of_int end_ ++ ".epub")
       = Some (write_epub cfg (get_base_name (config.epub cfg)) (find_cover z) (S j) batch)
       ∧ shows_title
           (get_base_name (config.epub cfg) ++ " " ++ str_of_int start ++ "-"
            ++ str_of_int end_)
           (write_epub cfg (get_base_name (config.epub cfg)) (find_cover z) (S j) batch))
  ∧ (config.title cfg = None ∨ config.title cfg = Some [] →
     ∀ start end_ batch,
       config.singlerange cfg = Some (start, end_) →
       chapter_batches cfg (extract_chapters z) = Ok [batch] →
       run cfg z fs
       = Outcome
           (<[output_dir cfg ++ get_base_name (config.epub cfg) ++ "_" ++ str_of_int start
              ++ "_" ++ str_of_int end_ ++ ".epub" :=
                write_epub cfg (get_base_name (config.epub cfg)) (find_cover z) 1 batch]> fs)
           None
       ∧ shows_title
           (get_base_name (config.epub cfg) ++ " " ++ str_of_int start ++ "-"
            ++ str_of_int end_)
           (write_epub cfg (get_base_name (config.epub cfg)) (find_cover z) 1 batch)).
Proof.
  split; [|split].
  - intros t Ht Hne. split.
    + intros batches last_batch Hbatches Hlast. rewrite (run_ok _ _ _ _ Hbatches).
      rewrite (write_parts_one_path _ _ _ _
                 (output_dir cfg ++ re_sub_spaces (strip t) ++ ".epub"));
        [|intros; by apply output_name_titled].
      rewrite last_enumerate, Hlast. cbn [fmap option_fmap option_map].
      apply last_Some in Hlast as [l' ->].
      replace (1 + length (l' ++ [last_batch]) - 1)%nat with (length (l' ++ [last_batch]))
        by lia.
      done.
    + intros base_name c i batch.
      rewrite <-(part_title_titled cfg base_name i batch t Ht Hne).
      apply write_epub_shows_title.
  - intros Ht Hr Hsize batches j batch Hbatches Hj start end_.
    assert (start_chapter cfg (S j) = start) as Hstart.
    { unfold start_chapter, start. rewrite Hr. lia. }
    assert (end_chapter cfg (S j) batch = end_) as Hend.
    { unfold end_chapter, end_, start. rewrite Hr. lia. }
    split.
    + rewrite <-Hstart, <-Hend, <-output_name_untitled by done.
      rewrite (run_ok _ _ _ _ Hbatches).
      apply (write_parts_lookup _ _ _ _ _ _ j).
      * by apply enumerate_lookup_Some.
      * intros j' i' batch' _. apply untitled_can_open; [done|].
        apply get_base_name_no_sep.
      * intros j' i' batch' [-> _]%enumerate_lookup_Some
          [Hsame _]%output_name_positions; [|done].
        unfold start_chapter in Hsame. rewrite Hr in Hsame. nia.
    + rewrite <-Hstart, <-Hend, <-part_title_untitled by done.
      apply write_epub_shows_title.
  - intros Ht start end_ batch Hr Hbatches.
    assert (∀ i b, start_chapter cfg i = start ∧ end_chapter cfg i b = end_) as Hpos.
    { intros i b. unfold start_chapter, end_chapter. by rewrite Hr. }
    split.
    + rewrite (run_ok _ _ _ _ Hbatches). simpl.
      rewrite untitled_can_open; [|done|apply get_base_name_no_sep].
      rewrite output_name_untitled by done.
      by destruct (Hpos 1%nat batch) as [-> ->].
    + destruct (Hpos 1%nat batch) as [<- <-].
      rewrite <-part_title_untitled by done. apply write_epub_shows_title.
Qed.

(** ** What a run leaves on the file system *)


(** X12. A run touches the file system at the output names of its parts
    only, and a run that ends with a [ValueError] leaves it as it was: the
    error comes from the split, before the first write. *)
Theorem run_frame (cfg : config.t) (z : list zip_entry) (fs : file_system) :
  (∀ msg, raised (run cfg z fs) = Some (ValueError msg) →
     files (run cfg z fs) = fs
     ∧ chapter_batches cfg (extract_chapters z) = Raise (ValueError msg))
  ∧ (∀ batches path,
       chapter_batches cfg (extract_chapters z) = Ok batches →
       (∀ j batch, batches !! j = Some batch →
          output_name cfg (get_base_name (config.epub cfg)) (output_dir cfg) (S j) batch
          ≠ path) →
       files (run cfg z fs) !! path = fs !! path).
Proof.
  split.
  - intros msg.
    destruct (chapter_batches cfg (extract_chapters z)) as [batches|e] eqn:Hb.
    + intros H. by destruct (run_no_value_error _ _ fs _ msg Hb).
    + rewrite (run_raise _ _ _ _ Hb). simpl. by intros [= ->].
  - intros batches path Hb Hne. rewrite (run_ok _ _ _ _ Hb). apply write_parts_frame.
    intros j i batch [-> Hj]%enumerate_lookup_Some. by apply Hne.
Qed.


(** ** Titles and file names *)

Lemma all_chars_lstrip (p : N → bool) (s : str) :
  all_chars p s = true → all_chars p (lstrip s) = true.
Proof.
  induction s as [|c s IH]; [done|]. rewrite all_chars_cons. simpl.
  intros [Hc Hs]%andb_true_iff.
  destruct (is_space c); [by apply IH|]. rewrite all_chars_cons. by rewrite Hc, Hs.
Qed.

Lemma all_chars_rstrip (p : N → bool) (s : str) :
  all_chars p s = true → all_chars p (rstrip s) = true.
Proof.
  induction s as [|c s IH]; [done|]. rewrite all_chars_cons. simpl.
  intros [Hc Hs]%andb_true_iff.
  specialize (IH Hs). destruct (rstrip s) as [|c' r].
  - destruct (is_space c); [done|]. rewrite all_chars_cons. by rewrite Hc.
  - rewrite all_chars_cons. by rewrite Hc, IH.
Qed.

Lemma replace_no_dash (s : str) :
  all_chars not_dash (replace (ch "-") (ch " ") s) = true.
Proof.
  unfold replace. induction s as [|c s IH]; [done|].
  rewrite fmap_cons, all_chars_cons, IH, andb_true_r.
  unfold not_dash. destruct (N.eqb_spec c (ch "-")) as [->|Hne]; [done|].
  by apply negb_true_iff, N.eqb_neq.
Qed.

Lemma rstrip_idem (s : str) : rstrip (rstrip s) = rstrip s.
Proof.
  induction s as [|c s IH]; [done|]. simpl.
  destruct (rstrip s) as [|c' r] eqn:Hr.
  - destruct (is_space c) eqn:Hc; [done|]. simpl. by rewrite Hc.
  - change (rstrip (c :: c' :: r))
      with (match rstrip (c' :: r) with
            | [] => if is_space c then [] else [c]
            | r' => c :: r'
            end).
    by rewrite IH.
Qed.

(** Trimming at the end keeps a text trimmed at the start. *)
Lemma lstrip_rstrip (s : str) : lstrip (rstrip (lstrip s)) = rstrip (lstrip s).
Proof.
  induction s as [|c s IH]; [done|].
  change (lstrip (c :: s)) with (if is_space c then lstrip s else c :: s).
  destruct (is_space c) eqn:Hc; [exact IH|].
  change (rstrip (c :: s))
    with (match rstrip s with
          | [] => if is_space c then [] else [c]
          | r => c :: r
          end).
  rewrite Hc. destruct (rstrip s); simpl; by rewrite Hc.
Qed.

Lemma strip_fixed (s : str) : lstrip (strip s) = strip s ∧ rstrip (strip s) = strip s.
Proof. unfold strip. split; [apply lstrip_rstrip|apply rstrip_idem]. Qed.

(** X14. The title of a chapter never has a dash in it and never starts or
    ends with white space: trimming it again changes nothing. *)
Theorem chapter_title_clean (base_file : str) :
  all_chars not_dash (chapter_title base_file) = true
  ∧ lstrip (chapter_title base_file) = chapter_title base_file
  ∧ rstrip (chapter_title base_file) = chapter_title base_file
  ∧ strip (chapter_title base_file) = chapter_title base_file.
Proof.
  unfold chapter_title.
  set (t := replace (ch "-") (ch " ") _).
  destruct (strip_fixed t) as [Hl Hr].
  split; [|split; [done|split; [done|]]].
  - unfold strip. apply all_chars_rstrip, all_chars_lstrip, replace_no_dash.
  - unfold strip at 1. by rewrite Hl, Hr.
Qed.

Lemma re_sub_spaces_from_no_space (in_run : bool) (s : str) :
  all_chars not_space (re_sub_spaces_from in_run s) = true.
Proof.
  revert in_run. induction s as [|c s IH]; intros in_run; [done|]. simpl.
  destruct (is_space c) eqn:Hc.
  - destruct in_run; [apply IH|]. rewrite all_chars_cons. by rewrite IH.
  - rewrite all_chars_cons. unfold not_space at 1. by rewrite Hc, IH.
Qed.

Lemma no_space_fixed (s : str) :
  all_chars not_space s = true →
  lstrip s = s ∧ rstrip s = s ∧ ∀ in_run, re_sub_spaces_from in_run s = s.
Proof.
  induction s as [|c s IH]; [done|]. rewrite all_chars_cons. simpl.
  intros [Hc Hs]%andb_true_iff.
  unfold not_space in Hc. apply negb_true_iff in Hc. rewrite Hc.
  destruct (IH Hs) as (_ & Hr & Hsub). rewrite Hr. split; [done|]. split.
  - by destruct s.
  - intros in_run. by rewrite Hsub.
Qed.

(** X15. The file name made from a title has no white space in it, and a
    title without white space is taken as it is. *)
Theorem safe_title_no_space (t : str) :
  all_chars not_space (re_sub_spaces (strip t)) = true
  ∧ (all_chars not_space t = true → re_sub_spaces (strip t) = t).
Proof.
  split; [apply re_sub_spaces_from_no_space|].
  intros Ht. destruct (no_space_fixed t Ht) as (Hl & Hr & Hsub).
  unfold strip, re_sub_spaces. by rewrite Hl, Hr, Hsub.
Qed.

(** ** The cover, from the search to the package *)

Lemma endswith_nonempty (s suf : str) :
  endswith s suf = true → suf ≠ [] → s ≠ [].
Proof.
  intros [p ->]%endswith_spec Hsuf Hs. by apply app_eq_nil in Hs as [_ ->].
Qed.

Lemma is_image_name_nonempty (n : str) : is_image_name n = true → n ≠ [].
Proof. intros H ->. by vm_compute in H. Qed.

(** X2. The cover search takes the first member of the listing whose name
    passes the test of line 102, keeps its bytes and its base name, and
    gives it the media type of its extension when the base name spells the
    extension in lower case. *)
Theorem cover_search_first_match (z : list zip_entry) (pre post : list str) (e : str) :
  namelist z = pre ++ e :: post →
  Forall (λ f, is_cover_name f = false) pre →
  is_cover_name e = true →
  find_cover z = Cover (Some (zread z e)) (Some (base_of e)) (media_type_of (base_of e))
  ∧ (endswith (base_of e) ".jpg" = true ∨ endswith (base_of e) ".jpeg" = true →
       cover_media_type (find_cover z) = Some (lit "image/jpeg"))
  ∧ (endswith (base_of e) ".png" = true →
       cover_media_type (find_cover z) = Some (lit "image/png")).
Proof.
  intros Hz Hpre He. rewrite (find_cover_first z pre post e Hz Hpre He). simpl.
  split; [done|]. apply media_type_of_lower.
Qed.

(** X16. The three cover variables are set together.  No cover name is set
    exactly when no member name passes the test of line 102, and then
    neither bytes nor media type are set; a cover name that is set is the
    base name of a member that passes the test: it is not empty, has no
    slash, ends with an image extension in some case, and the bytes are
    those of that member. *)
Theorem cover_state_invariant (z : list zip_entry) :
  (cover_image_name (find_cover z) = None
     ↔ Forall (λ f, is_cover_name f = false) (namelist z))
  ∧ (cover_image_name (find_cover z) = None → find_cover z = Cover None None None)
  ∧ ∀ n, cover_image_name (find_cover z) = Some n →
      n ≠ [] ∧ contains "/" n = false ∧ is_image_name n = true
      ∧ cover_media_type (find_cover z) = media_type_of n
      ∧ ∃ e, e ∈ namelist z ∧ is_cover_name e = true ∧ n = base_of e
             ∧ cover_image (find_cover z) = Some (zread z e).
Proof.
  split; [|split].
  - unfold find_cover. generalize z at 1. intros z'.
    induction (namelist z) as [|f files IH]; simpl.
    + split; [constructor|done].
    + destruct (is_cover_name f) eqn:Hf; simpl.
      * split; [done|]. intros H. apply Forall_cons in H as [H _]. congruence.
      * rewrite IH. split; [by constructor|by intros [_ ?]%Forall_cons].
  - unfold find_cover. generalize z at 1 3. intros z'.
    induction (namelist z) as [|f files IH]; simpl; [done|].
    by destruct (is_cover_name f).
  - intros n Hn. pose proof (find_cover_image_name z n Hn) as Himg.
    destruct (find_cover_in_name z _ n Hn) as (e & He & Hc & -> & Hbytes & Hmt).
    split; [by apply is_image_name_nonempty|]. split; [apply base_of_no_slash|].
    split; [done|]. split; [done|]. by exists e.
Qed.

(** X17. A cover whose bytes are not empty and whose name ends with [.jpg],
    [.jpeg] or [.png] in lower case is in the package throughout and under
    one name: as a member of the container with its bytes, as the first item
    of the manifest with the media type of its extension, as the first
    navigation point, and through the cover entry of the metadata. *)
Theorem cover_written_and_referenced (z : list zip_entry) (n : str)
    (b0 : Byte.byte) (b : list Byte.byte) :
  cover_image_name (find_cover z) = Some n →
  cover_image (find_cover z) = Some (b0 :: b) →
  endswith n ".jpg" = true ∨ endswith n ".jpeg" = true ∨ endswith n ".png" = true →
  ∃ mt : str,
    (mt = "image/jpeg" ∨ mt = "image/png")
    ∧ cover_media_type (find_cover z) = Some mt
    ∧ cover_members (find_cover z) = [Member n (Binary (b0 :: b)) ZIP_STORED]
    ∧ manifest_head (find_cover z) = cover_item n mt ++ css_item
    ∧ nav_head (find_cover z) = cover_nav_point n
    ∧ ∀ part_title base_name i,
        ∃ pre, metadata (find_cover z) part_title base_name i
               = pre ++ "<meta name=" ++ q "cover" ++ " content=" ++ q "cover" ++ "/>"
                 ++ nl ++ "  </metadata>".
Proof.
  intros Hn Hb Hext.
  destruct (find_cover_in_name z _ n Hn) as (e & _ & _ & _ & _ & Hmt).
  fold (find_cover z) in Hmt.
  assert (n ≠ []) as Hne.
  { destruct Hext as [H|[H|H]]; by apply (endswith_nonempty _ _ H). }
  assert (∃ mt : str, (mt = "image/jpeg" ∨ mt = "image/png") ∧ media_type_of n = Some mt)
    as (mt & Hmt_cases & Hmt_n).
  { destruct (media_type_of_lower n) as [Hjpeg Hpng].
    destruct Hext as [H|[H|H]].
    - exists (lit "image/jpeg"). split; [by left|]. apply Hjpeg. by left.
    - exists (lit "image/jpeg"). split; [by left|]. apply Hjpeg. by right.
    - exists (lit "image/png"). split; [by right|]. by apply Hpng. }
  exists mt. split; [done|]. rewrite Hmt_n in Hmt. split; [done|].
  assert (truthy_str mt = true) as Htmt by (by destruct Hmt_cases as [-> | ->]).
  unfold cover_members, manifest_head, before_chapters, nav_head, metadata, truthy.
  rewrite Hn, Hb, Hmt. cbn [truthy_bytes andb manifest_items].
  rewrite (truthy_str_true n Hne), Htmt. cbn [andb].
  split; [done|]. split; [done|]. split; [done|].
  intros part_title base_name i.
  lazymatch goal with |- ∃ pre, (?m ++ _) ++ _ = _ => exists m end.
  by rewrite <-!app_assoc.
Qed.

(** X1. The members of every written container, in the order they are
    written: [mimetype] first and stored, the container descriptor, the
    cover under its base name when line 174 finds both its bytes and its
    name true, the stylesheet, one document per chapter of the batch in
    order and under the chapter's file name, [content.opf], [toc.ncx]. *)
Theorem container_member_order (cfg : config.t) (base_name : str) (c : cover)
    (i : nat) (batch : list chapter) :
  write_epub cfg base_name c i batch =
    [Member "mimetype" (Text "application/epub+zip") ZIP_STORED;
     Member "META-INF/container.xml" (Text container_xml) ZIP_STORED]
    ++ cover_members c
    ++ [Member "styles.css" (Text css_content) ZIP_STORED]
    ++ (chapter_member <$> batch)
    ++ [Member "content.opf"
          (Text (content_opf (metadata c (part_title cfg base_name i batch) base_name i)
                             (manifest_of c batch) (spine_of c batch)))
          ZIP_STORED;
        Member "toc.ncx"
          (Text (toc_ncx base_name i (part_title cfg base_name i batch)
                         (nav_points c batch)))
          ZIP_STORED].
Proof. apply write_epub_members. Qed.

(** X18. The documents of a package, exactly: the manifest is the cover item
    (when the cover has a name and a media type), the stylesheet item, one
    item per chapter of the batch in order with the ids [chap1..chap{len}],
    and the navigation item; the spine is one itemref per chapter in the
    same order; the navigation map is the cover point (when the cover has a
    name) and one point per chapter numbered [1..len]; the chapter
    documents are written in the order of the batch. *)
Theorem package_structure (c : cover) (batch : list chapter) :
  manifest_of c batch
  = (match cover_image_name c, cover_media_type c with
     | Some n, Some t => if truthy_str n && truthy_str t then cover_item n t else []
     | _, _ => []
     end)
    ++ css_item
    ++ join (imap (λ k chap, manifest_item (S k) chap) batch)
    ++ ncx_item
  ∧ spine_of c batch = join (imap (λ k _, spine_item (S k)) batch)
  ∧ nav_points c batch
    = (match cover_image_name c with
       | Some n => if truthy_str n then cover_nav_point n else []
       | None => []
       end)
      ++ join (imap (λ k chap, nav_point (S k) chap) batch)
  ∧ outzip (chapter_loop (before_chapters c) batch)
    = outzip (before_chapters c) ++ (chapter_member <$> batch).
Proof.
  split; [|split; [|split]].
  - rewrite manifest_of_eq. unfold manifest_head, before_chapters. cbn [manifest_items].
    destruct (cover_image_name c) as [n|], (cover_media_type c) as [t|];
      by rewrite ?app_nil_l, <-?app_assoc.
  - apply spine_of_eq.
  - apply nav_points_eq.
  - unfold chapter_loop. by rewrite chapter_loop_from.
Qed.

(** ** The script on the specification's examples *)

(** C4 on the specification's own example.  Of the members [img/Cover.PNG]
    and [img/other-cover.jpg] the search takes the first, which passes the
    case-insensitive test of line 102; the media type is then looked up on
    the name as spelled (lines 105-108), where [.PNG] is none of the three
    extensions, and stays unset instead of [image/png]. *)
Theorem cover_upper_case_extension :
  namelist two_covers_book
    = [lit "img/Cover.PNG"; lit "img/other-cover.jpg"; lit "OEBPS/a.xhtml"]
  ∧ is_cover_name "img/Cover.PNG" = true
  ∧ find_cover two_covers_book = Cover (Some (page "PNG")) (Some (lit "Cover.PNG")) None
  ∧ media_type_of "Cover.PNG" = None
  ∧ media_type_of (lower "Cover.PNG") = Some (lit "image/png").
Proof. by vm_compute. Qed.

(** C6 on a book whose cover image is an empty file.  The cover is found,
    with a name and a media type, and the manifest and the navigation map
    refer to it; the test of line 174 takes the empty bytes for no cover, and
    the container is written without the cover member. *)
Theorem empty_cover_not_written :
  find_cover empty_cover_book
    = Cover (Some []) (Some (lit "cover.jpg")) (Some (lit "image/jpeg"))
  ∧ m_name <$> write_epub (fixed_cfg 100) "novel" (find_cover empty_cover_book) 1
                 (extract_chapters empty_cover_book)
    = [lit "mimetype"; lit "META-INF/container.xml"; lit "styles.css"; lit "a.xhtml";
       lit "content.opf"; lit "toc.ncx"]
  ∧ manifest_head (find_cover empty_cover_book)
    = cover_item "cover.jpg" "image/jpeg" ++ css_item
  ∧ nav_head (find_cover empty_cover_book) = cover_nav_point "cover.jpg".
Proof. by vm_compute. Qed.

(** C10.  The test of line 102 reads the whole path: [covers/art.jpg] is
    taken as the cover though its base name has no [cover] in it, and it is
    kept under the base name [art.jpg].  On the book whose cover is
    [img/Cover.PNG] the cover is written to the container and the
    navigation map refers to it, both under [Cover.PNG], but the manifest
    has no item for it: it starts with the stylesheet item. *)
Theorem cover_path_and_base_name :
  (find_cover covers_dir_book
     = Cover (Some (page "JFIF")) (Some (lit "art.jpg")) (Some (lit "image/jpeg"))
   ∧ contains "cover" (lower (base_of "covers/art.jpg")) = false
   ∧ cover_members (find_cover covers_dir_book)
     = [Member "art.jpg" (Binary (page "JFIF")) ZIP_STORED]
   ∧ manifest_head (find_cover covers_dir_book)
     = cover_item "art.jpg" "image/jpeg" ++ css_item
   ∧ nav_head (find_cover covers_dir_book) = cover_nav_point "art.jpg")
  ∧ (cover_members (find_cover two_covers_book)
       = [Member "Cover.PNG" (Binary (page "PNG")) ZIP_STORED]
     ∧ nav_head (find_cover two_covers_book) = cover_nav_point "Cover.PNG"
     ∧ manifest_head (find_cover two_covers_book) = css_item).
Proof. by vm_compute. Qed.

(** A title whose number is written with a decimal digit beyond ASCII: the
    script strips the number, [^[0-9]+-] does not. *)
Lemma decimal_digit_beyond_ascii :
  unicode_decimal 1635%N = true → unicode_space 1635%N = false →
  chapter_title arabic_three_intro = "intro"
  ∧ TitleDeriver.derive arabic_three_intro = 1635%N :: lit " intro".
Proof.
  intros Hdigit Hspace. split.
  - rewrite chapter_title_decimal.
    unfold TitleDeriver.derive_decimal, TitleDeriver.derive_with.
    replace (TitleDeriver.strip_extension arabic_three_intro) with (1635%N :: lit "-intro")
      by by vm_compute.
    rewrite (strip_leading_number_match is_digit [1635%N] (lit "intro")); [by vm_compute|done|done|].
    unfold TitleDeriver.digits, is_digit. simpl. by rewrite Hdigit.
  - unfold TitleDeriver.derive, TitleDeriver.derive_with.
    replace (TitleDeriver.dashes_to_spaces _) with [1635; 32; 105; 110; 116; 114; 111]%N
      by by vm_compute.
    assert (is_space 1635 = false) as Hsp by (unfold is_space; simpl; exact Hspace).
    unfold TitleDeriver.trim. simpl. by rewrite Hsp.
Qed.
End facts.

(** ** The theorems on sample inputs *)

Section samples.
Local Existing Instance sample_env.

(** The specification's end-to-end example: [a.xhtml], [b.xhtml] and
    [c.xhtml] in batches of two give two containers; the first holds [a] and
    [b] with the spine [chap1, chap2], the second holds [c] alone with the
    spine [chap1]. *)
Example end_to_end_abc :
  file_name <$> extract_chapters abc_book = [lit "a.xhtml"; lit "b.xhtml"; lit "c.xhtml"]
  ∧ raised (run (fixed_cfg 2) abc_book ∅) = None
  ∧ (∀ path : str, is_Some (files (run (fixed_cfg 2) abc_book ∅) !! path)
       ↔ path = "books/novel_1_2.epub" ∨ path = "books/novel_3_3.epub")
  ∧ (fmap (M := list) m_name
       <$> files (run (fixed_cfg 2) abc_book ∅) !! lit "books/novel_1_2.epub")
     = Some [lit "mimetype"; lit "META-INF/container.xml"; lit "styles.css";
             lit "a.xhtml"; lit "b.xhtml"; lit "content.opf"; lit "toc.ncx"]
  ∧ (fmap (M := list) m_name
       <$> files (run (fixed_cfg 2) abc_book ∅) !! lit "books/novel_3_3.epub")
     = Some [lit "mimetype"; lit "META-INF/container.xml"; lit "styles.css";
             lit "c.xhtml"; lit "content.opf"; lit "toc.ncx"]
  ∧ spine_of (find_cover abc_book) (take 2 (extract_chapters abc_book))
    = spine_item 1 ++ spine_item 2
  ∧ spine_of (find_cover abc_book) (drop 2 (extract_chapters abc_book))
    = spine_item 1.
Proof.
  split; [by vm_compute|]. split; [by vm_compute|]. split; [|by vm_compute].
  intros path.
  assert (files (run (fixed_cfg 2) abc_book ∅)
          = <[lit "books/novel_3_3.epub" :=
                write_epub (fixed_cfg 2) "novel" (find_cover abc_book) 2
                  (drop 2 (extract_chapters abc_book))]>
              (<[lit "books/novel_1_2.epub" :=
                   write_epub (fixed_cfg 2) "novel" (find_cover abc_book) 1
                     (take 2 (extract_chapters abc_book))]> ∅)) as ->.
  { by vm_compute. }
  rewrite !lookup_insert_is_Some, lookup_empty. split.
  - intros [<-|[_ [<-|[_ H]]]]; [by right|by left|by destruct H].
  - intros [->| ->]; [right; split; [by vm_compute|by left]|by left].
Qed.

(** The second chapter of a batch of five, written with no cover: its
    manifest item is in the text written as [content.opf]. *)
Lemma chapter_references_witness :
  five_chapters !! 1%nat = Some (Chapter "c2.xhtml" "<p/>" "c2")
  ∧ ∃ opf,
      Member "content.opf" (Text opf) ZIP_STORED
        ∈ write_epub (fixed_cfg 100) "novel" (Cover None None None) 1 five_chapters
      ∧ part_of (manifest_item 2 (Chapter "c2.xhtml" "<p/>" "c2")) opf.
Proof.
  split; [reflexivity|].
  destruct (chapter_references (fixed_cfg 100) "novel" (Cover None None None) 1
              five_chapters 1 (Chapter "c2.xhtml" "<p/>" "c2") eq_refl)
    as (opf & ncx & Hopf & _ & _ & _ & _ & _ & _ & _ & Hitem & _).
  exists opf. split; [exact Hopf|exact Hitem].
Defined.

(** Five chapters in batches of two: batches of lengths 2, 2 and 1 that
    concatenate to the five chapters. *)
Lemma chunks_fixed_windows_witness :
  1 ≤ 2
  ∧ chunks five_chapters 2
    = Ok [take 2 five_chapters; take 2 (drop 2 five_chapters); drop 4 five_chapters]
  ∧ (∃ batches, chunks five_chapters 2 = Ok batches ∧ length <$> batches = [2; 2; 1]%nat)
  ∧ ∃ batches,
      chunks five_chapters 2 = Ok batches
      ∧ concat batches = five_chapters
      ∧ ∀ (k : nat) (b : list chapter), batches !! k = Some b →
          b = take (Z.to_nat 2) (drop (k * Z.to_nat 2) five_chapters)
          ∧ (1 ≤ length b ≤ Z.to_nat 2)%nat
          ∧ ((S k < length batches)%nat → length b = Z.to_nat 2)
          ∧ ∀ (j : nat) x, b !! j = Some x →
              five_chapters !! (k * Z.to_nat 2 + j)%nat = Some x.
Proof.
  split; [lia|]. split; [reflexivity|]. split; [by eexists|].
  apply (chunks_fixed_windows five_chapters 2). lia.
Defined.

(** Over five chapters, the range (2, 4) gives the chapters at positions 2
    to 4, and the ranges (0, 4) and (2, 10) are refused. *)
Lemma single_range_spec_witness :
  chapter_batches (config.mk "b.epub" 100 None None (Some (2, 4))) five_chapters
    = Ok [take 3 (drop 1 five_chapters)]
  ∧ file_name <$> take 3 (drop 1 five_chapters)
    = [lit "c2.xhtml"; lit "c3.xhtml"; lit "c4.xhtml"]
  ∧ chapter_batches (config.mk "b.epub" 100 None None (Some (0, 4))) five_chapters
    = Raise (invalid_range 0 4 5)
  ∧ chapter_batches (config.mk "b.epub" 100 None None (Some (2, 10))) five_chapters
    = Raise (invalid_range 2 10 5)
  ∧ ∃ batch,
      chapter_batches (config.mk "b.epub" 100 None None (Some (2, 4))) five_chapters
        = Ok [batch]
      ∧ Z.of_nat (length batch) = 4 - 2 + 1.
Proof.
  do 4 (split; [by vm_compute|]).
  destruct (single_range_spec (config.mk "b.epub" 100 None None (Some (2, 4)))
              five_chapters 2 4 eq_refl) as (_ & _ & Hok).
  destruct Hok as (batch & Hb & Hlen & _); [vm_compute; intuition discriminate|].
  exists batch. by split.
Defined.

(** A batch size of -1 is less than 1, and the run raises nothing: it makes
    no batch and leaves the file system as it was. *)
Lemma negative_batch_size_runs :
  config.splitsize (fixed_cfg (-1)) < 1
  ∧ run (fixed_cfg (-1)) abc_book ∅ = Outcome ∅ None
  ∧ ¬ (∀ cfg z fs, config.splitsize cfg < 1 →
         ∃ e, raised (run cfg z fs) = Some e).
Proof.
  split; [done|]. split; [reflexivity|].
  intros H. destruct (H (fixed_cfg (-1)) abc_book ∅) as [e He]; [done|].
  discriminate He.
Qed.

Lemma batch_size_validation_witness :
  run (fixed_cfg 0) abc_book ∅ = Outcome ∅ (Some range_step_zero)
  ∧ run (fixed_cfg (-3)) abc_book ∅ = Outcome ∅ None
  ∧ (∀ msg, raised (run (fixed_cfg 2) abc_book ∅) ≠ Some (ValueError msg))
  ∧ raised (run (range_cfg 0 9) abc_book ∅) ≠ Some range_step_zero.
Proof.
  split; [|split; [|split]].
  - apply (batch_size_validation (fixed_cfg 0) abc_book ∅); reflexivity.
  - apply (batch_size_validation (fixed_cfg (-3)) abc_book ∅);
      [reflexivity|simpl; lia].
  - apply (batch_size_validation (fixed_cfg 2) abc_book ∅);
      [reflexivity|simpl; lia].
  - apply (batch_size_validation (range_cfg 0 9) abc_book ∅). simpl. lia.
Defined.

(** An empty book and a batch size of 0: the run ends with the error of
    [range], not without error. *)
Lemma empty_book_zero_size :
  extract_chapters no_chapter_book = []
  ∧ config.singlerange (fixed_cfg 0) = None
  ∧ run (fixed_cfg 0) no_chapter_book ∅ = Outcome ∅ (Some range_step_zero)
  ∧ ¬ (∀ cfg z fs, extract_chapters z = [] → config.singlerange cfg = None →
         raised (run cfg z fs) = None).
Proof.
  split; [reflexivity|]. split; [reflexivity|]. split; [reflexivity|].
  intros H. specialize (H (fixed_cfg 0) no_chapter_book ∅ eq_refl eq_refl).
  discriminate H.
Qed.

Lemma empty_book_witness :
  extract_chapters no_chapter_book = []
  ∧ run (fixed_cfg 100) no_chapter_book ∅ = Outcome ∅ None
  ∧ run (range_cfg 1 1) no_chapter_book ∅
    = Outcome ∅ (Some (invalid_range 1 1 0)).
Proof.
  split; [reflexivity|]. split.
  - apply (empty_book (fixed_cfg 100) no_chapter_book ∅ eq_refl);
      [reflexivity|simpl; lia].
  - apply (proj2 (empty_book (range_cfg 1 1) no_chapter_book ∅ eq_refl)
                  1 1 eq_refl).
Defined.

(** A title with a leading space: the file name has no underscore for it. *)
Lemma title_is_trimmed_first :
  output_name (titled_cfg 2 " A") "novel" "books/" 1 five_chapters = "books/A.epub"
  ∧ "books/" ++ re_sub_spaces " A" ++ ".epub" = lit "books/_A.epub"
  ∧ ¬ (∀ cfg base_name dir i batch t,
         config.title cfg = Some t →
         output_name cfg base_name dir i batch = dir ++ re_sub_spaces t ++ ".epub").
Proof.
  split; [by vm_compute|]. split; [by vm_compute|].
  intros H.
  specialize (H (titled_cfg 2 " A") (lit "novel") (lit "books/") 1%nat five_chapters
                (lit " A") eq_refl).
  vm_compute in H. discriminate H.
Qed.

(** The three chapters in batches of two under the title [My  Book]: both
    parts go to [books/My_Book.epub], which holds the second part at the
    end.  Under the title [a/b] the path leads into the directory [books/a],
    which is not there: the run ends with the error of the first write. *)
Lemma output_naming_witness :
  re_sub_spaces (strip "My  Book") = "My_Book"
  ∧ run (titled_cfg 2 "My  Book") abc_book ∅
    = Outcome (<[lit "books/My_Book.epub" :=
                   write_epub (titled_cfg 2 "My  Book") "novel" (find_cover abc_book) 2
                     (drop 2 (extract_chapters abc_book))]> ∅)
              None
  ∧ run (titled_cfg 2 "a/b") abc_book ∅ = Outcome ∅ (Some (OSError "books/a/b.epub"))
  ∧ shows_title "My  Book"
      (write_epub (titled_cfg 2 "My  Book") "novel" (find_cover abc_book) 2
         (drop 2 (extract_chapters abc_book)))
  ∧ files (run (fixed_cfg 2) abc_book ∅) !! lit "books/novel_3_3.epub"
    = Some (write_epub (fixed_cfg 2) "novel" (find_cover abc_book) 2
              (drop 2 (extract_chapters abc_book))).
Proof.
  split; [by vm_compute|].
  pose proof (output_naming (titled_cfg 2 "My  Book") abc_book ∅) as (Htitled & _).
  destruct (Htitled (lit "My  Book") eq_refl ltac:(discriminate)) as [Hrun Hshow].
  pose proof (output_naming (titled_cfg 2 "a/b") abc_book ∅) as (Hsep & _).
  destruct (Hsep (lit "a/b") eq_refl ltac:(discriminate)) as [Hfail _].
  pose proof (output_naming (fixed_cfg 2) abc_book ∅) as (_ & Hfixed & _).
  split; [|split; [|split]].
  - exact (Hrun [take 2 (extract_chapters abc_book); drop 2 (extract_chapters abc_book)]
                (drop 2 (extract_chapters abc_book)) eq_refl eq_refl).
  - exact (Hfail [take 2 (extract_chapters abc_book); drop 2 (extract_chapters abc_book)]
                 (drop 2 (extract_chapters abc_book)) eq_refl eq_refl).
  - apply Hshow.
  - exact (proj1 (Hfixed (or_introl eq_refl) eq_refl ltac:(simpl; lia)
                    [take 2 (extract_chapters abc_book); drop 2 (extract_chapters abc_book)]
                    1%nat (drop 2 (extract_chapters abc_book)) eq_refl eq_refl)).
Defined.

(** The digit three of the Arabic-Indic digits is a decimal digit and no
    white space: the script takes [٣-intro.html] for a numbered chapter and
    strips the number, which the run [^[0-9]+-] leaves in the title. *)
Lemma arabic_digit_is_stripped :
  is_digit 1635 = true ∧ is_ascii_digit 1635 = false
  ∧ chapter_title arabic_three_intro = "intro"
  ∧ TitleDeriver.derive arabic_three_intro = 1635%N :: lit " intro"
  ∧ (∀ E : Env, @unicode_decimal E 1635%N = true → @unicode_space E 1635%N = false →
       @chapter_title E arabic_three_intro ≠ @TitleDeriver.derive E arabic_three_intro)
  ∧ ¬ (∀ fileName, chapter_title fileName = TitleDeriver.derive fileName).
Proof.
  split; [reflexivity|]. split; [reflexivity|].
  split; [by vm_compute|]. split; [by vm_compute|]. split.
  - intros E Hdigit Hspace.
    destruct (@decimal_digit_beyond_ascii E Hdigit Hspace) as [-> ->]. by vm_compute.
  - intros H. specialize (H arabic_three_intro). by vm_compute in H.
Qed.

Lemma cover_search_first_match_witness :
  find_cover [ZipEntry "OEBPS/a.xhtml" (page "<p/>"); ZipEntry "img/cover.png" (page "PNG");
              ZipEntry "img/cover.jpg" (page "JFIF")]
  = Cover (Some (page "PNG")) (Some (lit "cover.png")) (Some (lit "image/png")).
Proof.
  destruct (cover_search_first_match
              [ZipEntry "OEBPS/a.xhtml" (page "<p/>"); ZipEntry "img/cover.png" (page "PNG");
               ZipEntry "img/cover.jpg" (page "JFIF")]
              [lit "OEBPS/a.xhtml"] [lit "img/cover.jpg"] (lit "img/cover.png") eq_refl)
    as [Hfind _].
  - by repeat constructor.
  - reflexivity.
  - exact Hfind.
Defined.

Lemma member_names_distinct_witness :
  NoDup (m_name <$> write_epub (fixed_cfg 2) "novel" (find_cover abc_book) 1
                      (take 2 (extract_chapters abc_book))).
Proof.
  apply (member_names_distinct (fixed_cfg 2) "novel" abc_book 1
           (take 2 (extract_chapters abc_book))).
  - apply subseteq_take.
  - by apply (bool_decide_unpack _).
Defined.

Lemma chunks_count_witness :
  ∃ batches,
    chunks five_chapters 2 = Ok batches
    ∧ Z.of_nat (length batches) = (Z.of_nat (length five_chapters) + 2 - 1) / 2.
Proof.
  destruct (chunks_count five_chapters 2 ltac:(lia)) as (batches & Hb & Hn & _).
  by exists batches.
Defined.

Lemma fixed_positions_witness :
  start_chapter (fixed_cfg 2) 2 = 3
  ∧ end_chapter (fixed_cfg 2) 2 (take 2 (drop 2 five_chapters)) = 4
  ∧ 1 ≤ start_chapter (fixed_cfg 2) 2 ≤ end_chapter (fixed_cfg 2) 2 (take 2 (drop 2 five_chapters)).
Proof.
  destruct (fixed_positions (fixed_cfg 2) five_chapters
              [take 2 five_chapters; take 2 (drop 2 five_chapters); drop 4 five_chapters]
              1 (take 2 (drop 2 five_chapters)) eq_refl ltac:(simpl; lia)
              eq_refl eq_refl) as (_ & Hpos & _).
  split; [reflexivity|]. split; [reflexivity|]. exact Hpos.
Defined.


Lemma run_frame_witness :
  files (run (fixed_cfg 2) abc_book {[lit "books/other.epub" := []]})
    !! lit "books/other.epub"
  = Some [].
Proof.
  rewrite (proj2 (run_frame (fixed_cfg 2) abc_book {[lit "books/other.epub" := []]})
             [take 2 (extract_chapters abc_book);
              drop 2 (extract_chapters abc_book)]
             (lit "books/other.epub") eq_refl).
  - apply lookup_singleton_eq.
  - intros [|[|j]] batch Hj; [injection Hj as <-..|done]; by vm_compute.
Defined.


Lemma path_decomposition_witness :
  get_base_name "books/My Book.EPUB" = "My Book"
  ∧ get_base_dir "books/My Book.EPUB" ++ get_base_name "books/My Book.EPUB"
    = without_epub "books/My Book.EPUB"
  ∧ get_base_dir "novel.epub" = "./".
Proof.
  split; [reflexivity|]. split.
  - apply (path_decomposition "books/My Book.EPUB"). reflexivity.
  - apply (path_decomposition "novel.epub"). reflexivity.
Defined.

Lemma output_dir_ends_with_sep_witness :
  output_dir (config.mk "books/novel.epub" 100 (Some (lit "out")) None None) = "out/"
  ∧ output_dir (config.mk "books/novel.epub" 100 (Some (lit "out\")) None None) = "out\"
  ∧ output_dir (config.mk "books/novel.epub" 100 (Some []) None None) = "books/".
Proof.
  split; [|split].
  - apply (proj1 (proj2 (output_dir_ends_with_sep
                           (config.mk "books/novel.epub" 100 (Some (lit "out")) None None)))
             (lit "out") eq_refl). discriminate.
  - apply (proj1 (proj2 (output_dir_ends_with_sep
                           (config.mk "books/novel.epub" 100 (Some (lit "out\")) None None)))
             (lit "out\") eq_refl). discriminate.
  - apply (proj2 (proj2 (output_dir_ends_with_sep
                           (config.mk "books/novel.epub" 100 (Some []) None None)))).
    by right.
Defined.

Lemma extracted_chapter_invariant_witness :
  title (Chapter "a.xhtml" (plain_decode (page "<p>first</p>")) "a") = chapter_title "a.xhtml"
  ∧ is_chapter_name "a.xhtml" = true.
Proof.
  destruct (proj2 (extracted_chapter_invariant abc_book)
              (Chapter "a.xhtml" (plain_decode (page "<p>first</p>")) "a"))
    as (_ & Htitle & Hname & _).
  - apply list_elem_of_here.
  - by split.
Defined.

Lemma safe_title_no_space_witness :
  re_sub_spaces (strip "MyBook") = "MyBook"
  ∧ all_chars not_space (re_sub_spaces (strip " My  Book ")) = true.
Proof.
  split.
  - apply (safe_title_no_space "MyBook"). reflexivity.
  - apply (safe_title_no_space " My  Book ").
Defined.

Lemma cover_state_invariant_witness :
  is_image_name "Cover.PNG" = true ∧ contains "/" "Cover.PNG" = false.
Proof.
  destruct (proj2 (proj2 (cover_state_invariant two_covers_book)) (lit "Cover.PNG") eq_refl)
    as (_ & Hslash & Himage & _).
  by split.
Defined.

Lemma cover_written_and_referenced_witness :
  cover_members (find_cover covers_dir_book)
  = [Member "art.jpg" (Binary (page "JFIF")) ZIP_STORED].
Proof.
  destruct (cover_written_and_referenced covers_dir_book "art.jpg" Byte.x4a
              (page "FIF") eq_refl eq_refl (or_introl eq_refl))
    as (mt & _ & _ & Hmembers & _).
  exact Hmembers.
Defined.

End samples.
